(** * gonc: a pure-Go NetCDF header reader, embedded and verified

    Shallow embedding of package [gonc] (magic / format / numrecs, the
    dimension list, the nested attribute lists and the variable list)
    together with the part of Go's [os.File] the package relies on.

    Conventions of the embedding:
    - a [uint32] is a [Z] in [0, 2^32); a [byte] is [Byte.byte]; a Go
      [string] is a [String.string] holding the same bytes;
    - the open file is the implicit state of a small free monad [io] whose
      operations are the three methods the package calls on its handle
      ([Read], [Seek], [Close]); [exec] interprets a program over the state
      of a regular file, [trace] records which byte ranges were read and
      which were skipped;
    - a Go function returning [(T, error)] is a program returning a
      [result T]; [Open], the exported entry point, keeps Go's pair
      [( *File, error)] as [(option File * option error)];
    - [int] is 64 bits wide, so [int(nelems)] is [nelems]; allocation
      ([make]) always succeeds. *)

From Stdlib Require Import ZArith List String Bool Lia Ascii DecimalString.
From Stdlib Require Import Strings.Byte.
Import ListNotations.

Local Open Scope Z_scope.

(** ** Errors *)

(** The error values the package can return, one constructor per site that
    creates one. [Error] renders the message as Go's [Error()] method does. *)
Inductive error : Type :=
| EOF                                 (* io.EOF, from f.Read at end of file *)
| ErrClosed                           (* os.ErrClosed: use of a closed file *)
| ErrInvalid                          (* seek to a negative offset *)
| ErrNotExist (path : string)         (* os.Open: no such file *)
| NotNetCDF                           (* errors.New("not a NetCDF file") *)
| UnsupportedFormat (format : byte)   (* "unsupported NetCDF format: %d" *)
| InvalidDimListTag (tag : Z)         (* "invalid dim_list tag: %d" *)
| InvalidAttrListTag (tag : Z)        (* "invalid attr_list tag: %d" *)
| InvalidVarListTag (tag : Z).        (* "invalid var_list tag: %d" *)

Definition byte_to_Z (b : byte) : Z := Z.of_N (Byte.to_N b).

Definition fmt_d (z : Z) : string := NilZero.string_of_int (Z.to_int z).

Definition Error (e : error) : string :=
  match e with
  | EOF => "EOF"
  | ErrClosed => "file already closed"
  | ErrInvalid => "invalid argument"
  | ErrNotExist path => "open " ++ path ++ ": no such file or directory"
  | NotNetCDF => "not a NetCDF file"
  | UnsupportedFormat format =>
      "unsupported NetCDF format: " ++ fmt_d (byte_to_Z format)
  | InvalidDimListTag tag => "invalid dim_list tag: " ++ fmt_d tag
  | InvalidAttrListTag tag => "invalid attr_list tag: " ++ fmt_d tag
  | InvalidVarListTag tag => "invalid var_list tag: " ++ fmt_d tag
  end%string.

Inductive result (A : Type) : Type :=
| Ok (a : A)
| Err (e : error).
Arguments Ok {A} a.
Arguments Err {A} e.

(** ** The operating-system side: a regular file behind [*os.File] *)

Module os.

(** Kernel-side state of the one file the package opens. *)
Record state : Type := mkState {
  data : list byte;      (* contents of the file *)
  offset : Z;            (* current read position *)
  closed : bool
}.

(** The handle stored in [gonc.File.f]. *)
Record File : Type := mkFile { Name : string }.

Definition FileSystem : Type := string -> option (list byte).

Definition size (s : state) : Z := Z.of_nat (List.length (data s)).

Definition slice (d : list byte) (off n : Z) : list byte :=
  firstn (Z.to_nat n) (skipn (Z.to_nat off) d).

Definition zeros (n : Z) : list byte := repeat x00 (Z.to_nat n).

(** [os.Open(path)]. *)
Definition Open (fs : FileSystem) (path : string) : result (File * state) :=
  match fs path with
  | Some d => Ok (mkFile path, mkState d 0 false)
  | None => Err (ErrNotExist path)
  end.

(** [f.Read(buf)] with [len(buf) = len] and [buf] freshly zeroed: the
    buffer after the call, the count [n] and the error.  A read of a
    regular file transfers the bytes that are there, up to [len]; it is an
    error only when [len > 0] and nothing is left ([0, io.EOF]).  The
    kernel's limit on a single transfer (about 2 GiB) is not modelled. *)
Definition Read (s : state) (len : Z)
  : (list byte * Z * option error) * state :=
  if closed s then ((zeros len, 0, Some ErrClosed), s)
  else if len <=? 0 then (([], 0, None), s)
  else
    let n := Z.min len (size s - offset s) in
    if n <=? 0 then ((zeros len, 0, Some EOF), s)
    else ((slice (data s) (offset s) n ++ zeros (len - n), n, None),
          mkState (data s) (offset s + n) false).

(** [f.Seek(off, whence)]: the new offset may lie beyond the end of the
    file; only a negative one is refused. *)
Definition Seek (s : state) (off whence : Z)
  : (Z * option error) * state :=
  if closed s then ((0, Some ErrClosed), s)
  else
    let base := if whence =? 0 then 0
                else if whence =? 1 then offset s
                else size s in
    let pos := base + off in
    if pos <? 0 then ((0, Some ErrInvalid), s)
    else ((pos, None), mkState (data s) pos false).

(** [f.Close()]. *)
Definition Close (s : state) : option error * state :=
  if closed s then (Some ErrClosed, s)
  else (None, mkState (data s) (offset s) true).

End os.

(** ** Programs over the open file *)

Inductive io (A : Type) : Type :=
| Ret (a : A)
| Read (len : Z) (k : list byte * Z * option error -> io A)
| Seek (off whence : Z) (k : Z * option error -> io A)
| Close (k : option error -> io A).
Arguments Ret {A} a.
Arguments Read {A} len k.
Arguments Seek {A} off whence k.
Arguments Close {A} k.

Fixpoint bind {A B : Type} (m : io A) (f : A -> io B) : io B :=
  match m with
  | Ret a => f a
  | Read len k => Read len (fun r => bind (k r) f)
  | Seek off whence k => Seek off whence (fun r => bind (k r) f)
  | Close k => Close (fun r => bind (k r) f)
  end.

(** [v, err := g(); if err != nil { return ..., err }] *)
Definition try {A B : Type} (m : io (result A)) (f : A -> io (result B))
  : io (result B) :=
  bind m (fun r => match r with Ok a => f a | Err e => Ret (Err e) end).

Declare Scope io_scope.
Delimit Scope io_scope with io.
Notation "x <- m ;; k" := (bind m (fun x => k))
  (at level 61, m at next level, right associativity) : io_scope.
Notation "' p <- m ;; k" := (bind m (fun x => match x with p => k end))
  (at level 61, p pattern, m at next level, right associativity) : io_scope.
Notation "x <-? m ;; k" := (try m (fun x => k))
  (at level 61, m at next level, right associativity) : io_scope.
Local Open Scope io_scope.

Definition f_Read (len : Z) : io (list byte * Z * option error) := Read len Ret.
Definition f_Seek (off whence : Z) : io (Z * option error) := Seek off whence Ret.
Definition f_Close : io (option error) := Close Ret.

(** What a run does to the file, one event per call.  A call that
    transfers or moves nothing leaves an empty range. *)
Inductive event : Type :=
| EvRead (from to : Z)     (* bytes [from, to) were copied to the caller *)
| EvSeek (from to : Z)     (* the offset moved from [from] to [to] *)
| EvClose.

Fixpoint exec {A : Type} (m : io A) (s : os.state) : A * os.state :=
  match m with
  | Ret a => (a, s)
  | Read len k => let '(r, s') := os.Read s len in exec (k r) s'
  | Seek off whence k => let '(r, s') := os.Seek s off whence in exec (k r) s'
  | Close k => let '(r, s') := os.Close s in exec (k r) s'
  end.

Fixpoint trace {A : Type} (m : io A) (s : os.state) : list event :=
  match m with
  | Ret _ => []
  | Read len k =>
      let '(r, s') := os.Read s len in
      EvRead (os.offset s) (os.offset s') :: trace (k r) s'
  | Seek off whence k =>
      let '(r, s') := os.Seek s off whence in
      EvSeek (os.offset s) (os.offset s') :: trace (k r) s'
  | Close k =>
      let '(r, s') := os.Close s in EvClose :: trace (k r) s'
  end.

(** ** Package gonc *)

Definition ClassicFormat : byte := x01.
Definition Format64BitOffset : byte := x02.

Record Dimension : Type := mkDimension {
  Dimension_Name : string;
  Dimension_Length : Z
}.

Record Attribute : Type := mkAttribute {
  Attribute_Name : string;
  Attribute_Type : Z;
  Attribute_Values : list byte
}.

(** Go's [Variable]; the bare name is a reserved word here. *)
Record Variable_ : Type := mkVariable {
  Variable_Name : string;
  DimIDs : list Z;
  DataType : Z;
  VSize : Z;
  Offset : Z;
  Attrs : list Attribute
}.

Record File : Type := mkFile {
  f : os.File;
  Format : byte;
  NumRecs : Z;
  Dims : list Dimension;
  Vars : list Variable_
}.

Definition u32 (z : Z) : Z := z mod 2 ^ 32.

(** [binary.BigEndian.Uint32(b)] *)
Definition BigEndian_Uint32 (b : list byte) : Z :=
  let at_ (i : nat) := byte_to_Z (nth i b x00) in
  Z.lor (Z.lor (Z.lor (at_ 3%nat) (Z.shiftl (at_ 2%nat) 8))
               (Z.shiftl (at_ 1%nat) 16))
        (Z.shiftl (at_ 0%nat) 24).

Definition readU32 : io (result Z) :=
  '(buf, _, err) <- f_Read 4 ;;
  match err with
  | Some e => Ret (Err e)
  | None => Ret (Ok (BigEndian_Uint32 buf))
  end.

(** [pad := (4 - (n % 4)) % 4], in [uint32] arithmetic. *)
Definition padding (n : Z) : Z := u32 (4 - n mod 4) mod 4.

Definition readString : io (result string) :=
  n <-? readU32 ;;
  '(buf, _, err) <- f_Read n ;;
  match err with
  | Some e => Ret (Err e)
  | None =>
      let pad := padding n in
      if 0 <? pad then
        '(_, err) <- f_Seek pad 1 ;;
        match err with
        | Some e => Ret (Err e)
        | None => Ret (Ok (string_of_list_byte buf))
        end
      else Ret (Ok (string_of_list_byte buf))
  end.

(** Body of the loop of [readDimList]: one dimension. *)
Definition readDim : io (result Dimension) :=
  name <-? readString ;;
  length <-? readU32 ;;
  Ret (Ok (mkDimension name length)).

(** [for i := 0; i < int(nelems); i++ { ...; dims = append(dims, ...) }],
    with [n] iterations left. *)
Fixpoint readDims (n : nat) (dims : list Dimension)
  : io (result (list Dimension)) :=
  match n with
  | O => Ret (Ok dims)
  | S n' => d <-? readDim ;; readDims n' (dims ++ [d])
  end.

Definition set_Dims (nc : File) (dims : list Dimension) : File :=
  mkFile (f nc) (Format nc) (NumRecs nc) dims (Vars nc).

Definition set_Vars (nc : File) (vars : list Variable_) : File :=
  mkFile (f nc) (Format nc) (NumRecs nc) (Dims nc) vars.

(** The method returns [error] and assigns [nc.Dims]; the program returns
    the receiver as it is after a successful call. *)
Definition readDimList (nc : File) : io (result File) :=
  tag <-? readU32 ;;
  if tag =? 0 then Ret (Ok (set_Dims nc []))
  else if negb (tag =? 0x0A) then Ret (Err (InvalidDimListTag tag))
  else
    nelems <-? readU32 ;;
    dims <-? readDims (Z.to_nat nelems) [] ;;
    Ret (Ok (set_Dims nc dims)).

(** Body of the loop of [readAttrList]: one attribute.  The result of the
    [Seek] over the padding is dropped, as in the source. *)
Definition readAttr : io (result Attribute) :=
  name <-? readString ;;
  atype <-? readU32 ;;
  nvals <-? readU32 ;;
  '(buf, _, err) <- f_Read nvals ;;
  match err with
  | Some e => Ret (Err e)
  | None =>
      let pad := padding nvals in
      if 0 <? pad then
        _ <- f_Seek pad 1 ;; Ret (Ok (mkAttribute name atype buf))
      else Ret (Ok (mkAttribute name atype buf))
  end.

Fixpoint readAttrs (n : nat) (attrs : list Attribute)
  : io (result (list Attribute)) :=
  match n with
  | O => Ret (Ok attrs)
  | S n' => a <-? readAttr ;; readAttrs n' (attrs ++ [a])
  end.

Definition readAttrList : io (result (list Attribute)) :=
  tag <-? readU32 ;;
  if tag =? 0 then Ret (Ok [])
  else if negb (tag =? 0x0C) then Ret (Err (InvalidAttrListTag tag))
  else
    nelems <-? readU32 ;;
    readAttrs (Z.to_nat nelems) [].

(** [dimIDs[j] = v]; the index is always in range in [readDimIDs]. *)
Fixpoint set_index (l : list Z) (j : nat) (v : Z) : list Z :=
  match l, j with
  | [], _ => []
  | _ :: l', O => v :: l'
  | x :: l', S j' => x :: set_index l' j' v
  end.

(** [for j := uint32(0); j < nDims; j++ { dimIDs[j], err = readU32(nc.f) ... }],
    with [n] iterations left and [j] the next index. *)
Fixpoint readDimIDs (n : nat) (j : nat) (dimIDs : list Z)
  : io (result (list Z)) :=
  match n with
  | O => Ret (Ok dimIDs)
  | S n' => v <-? readU32 ;; readDimIDs n' (S j) (set_index dimIDs j v)
  end.

(** Body of the loop of [readVarList]: one variable. *)
Definition readVar : io (result Variable_) :=
  name <-? readString ;;
  nDims <-? readU32 ;;
  dimIDs <-? readDimIDs (Z.to_nat nDims) 0 (repeat 0 (Z.to_nat nDims)) ;;
  attrs <-? readAttrList ;;
  dtype <-? readU32 ;;
  vsize <-? readU32 ;;
  offset <-? readU32 ;;
  Ret (Ok (mkVariable name dimIDs dtype vsize offset attrs)).

Fixpoint readVars (n : nat) (vars : list Variable_)
  : io (result (list Variable_)) :=
  match n with
  | O => Ret (Ok vars)
  | S n' => v <-? readVar ;; readVars n' (vars ++ [v])
  end.

Definition readVarList (nc : File) : io (result File) :=
  tag <-? readU32 ;;
  if tag =? 0 then Ret (Ok (set_Vars nc []))
  else if negb (tag =? 0x0B) then Ret (Err (InvalidVarListTag tag))
  else
    nelems <-? readU32 ;;
    vars <-? readVars (Z.to_nat nelems) [] ;;
    Ret (Ok (set_Vars nc vars)).

(** [Open] is embedded in three consecutive parts.  The last one: the two
    list calls, from [nc.readDimList()] to [return nc, nil]. *)
Definition Open_lists (nc : File) : io (option File * option error) :=
  r <- readDimList nc ;;
  match r with
  | Err e => _ <- f_Close ;; Ret (None, Some e)
  | Ok nc =>
      r <- readVarList nc ;;
      match r with
      | Err e => _ <- f_Close ;; Ret (None, Some e)
      | Ok nc => Ret (Some nc, None)
      end
  end.

(** The middle part: [numrecs] and the construction of [nc]. *)
Definition Open_numrecs (h : os.File) (format : byte)
  : io (option File * option error) :=
  '(buf, _, err) <- f_Read 4 ;;
  match err with
  | Some e => _ <- f_Close ;; Ret (None, Some e)
  | None =>
      let numrecs := BigEndian_Uint32 buf in
      let nc := mkFile h format numrecs [] [] in
      Open_lists nc
  end.

(** The first part, after [os.Open] has succeeded with handle [h]: the
    magic and the format byte. *)
Definition Open_file (h : os.File) : io (option File * option error) :=
  '(header, _, err) <- f_Read 4 ;;
  match err with
  | Some e => _ <- f_Close ;; Ret (None, Some e)
  | None =>
      if negb (String.eqb (string_of_list_byte (firstn 3 header)) "CDF") then
        _ <- f_Close ;; Ret (None, Some NotNetCDF)
      else
        let format := nth 3 header x00 in
        if negb (Byte.eqb format ClassicFormat)
           && negb (Byte.eqb format Format64BitOffset) then
          _ <- f_Close ;; Ret (None, Some (UnsupportedFormat format))
        else Open_numrecs h format
  end.

Definition Open (fs : os.FileSystem) (path : string)
  : option File * option error :=
  match os.Open fs path with
  | Err err => (None, Some err)
  | Ok (h, s) => fst (exec (Open_file h) s)
  end.

(** ** Which bytes a run looks at *)

(** The open file [s], [n] bytes further on. *)
Definition advance (s : os.state) (n : Z) : os.state :=
  os.mkState (os.data s) (os.offset s + n) false.

Definition byte_at (d : list byte) (i : Z) : option byte :=
  if i <? 0 then None else nth_error d (Z.to_nat i).

Definition in_range (a b i : Z) : bool := (a <=? i) && (i <? b).

(** Position [i] was copied to the caller by some [Read] of the run. *)
Definition readb (tr : list event) (i : Z) : bool :=
  existsb (fun ev => match ev with EvRead a b => in_range a b i | _ => false end) tr.

(** Position [i] was stepped over by some [Seek] of the run. *)
Definition skippedb (tr : list event) (i : Z) : bool :=
  existsb (fun ev => match ev with EvSeek a b => in_range a b i | _ => false end) tr.



(** The two files are at the same point: same offset, same open/closed
    status, same size. *)
Definition same_cursor (s1 s2 : os.state) : Prop :=
  os.offset s1 = os.offset s2 /\ os.closed s1 = os.closed s2
  /\ List.length (os.data s1) = List.length (os.data s2).

(** A program that only moves forward: every [Seek] is relative to the
    current offset and not negative. *)
Inductive forward {A : Type} : io A -> Prop :=
| forward_Ret a : forward (Ret a)
| forward_Read len k : (forall r, forward (k r)) -> forward (Read len k)
| forward_Seek off k :
    0 <= off -> (forall r, forward (k r)) -> forward (Seek off 1 k)
| forward_Close k : (forall r, forward (k r)) -> forward (Close k).

(** The events of [tr] lie at or after [p], one after the other. *)
Fixpoint chain (p : Z) (tr : list event) : Prop :=
  match tr with
  | [] => True
  | EvRead a b :: tr' => p <= a /\ a <= b /\ chain b tr'
  | EvSeek a b :: tr' => p <= a /\ a <= b /\ chain b tr'
  | EvClose :: tr' => chain p tr'
  end.

Definition Open_trace (fs : os.FileSystem) (path : string) : list event :=
  match os.Open fs path with
  | Err _ => []
  | Ok (h, s) => trace (Open_file h) s
  end.

(** The state of a variable's decoding when its attribute list starts. *)
Definition var_reaches_attrs (s0 : os.state) (name : string) (ids : list Z)
           (s : os.state) : Prop :=
  exists s1 nDims s2,
    exec readString s0 = (Ok name, s1)
    /\ exec readU32 s1 = (Ok nDims, s2)
    /\ exec (readDimIDs (Z.to_nat nDims) 0 (repeat 0 (Z.to_nat nDims))) s2
       = (Ok ids, s).

(** [nc] with another format byte. *)
Definition with_Format (b : byte) (nc : File) : File :=
  mkFile (f nc) b (NumRecs nc) (Dims nc) (Vars nc).

(** The state of an attribute's decoding when its value bytes start. *)
Definition attr_reaches_values (s0 : os.state) (name : string)
           (atype nvals : Z) (s : os.state) : Prop :=
  exists s1 s2,
    exec readString s0 = (Ok name, s1)
    /\ exec readU32 s1 = (Ok atype, s2)
    /\ exec readU32 s2 = (Ok nvals, s).

(** The fields of a variable after its attribute list. *)
Definition readVar_tail (name : string) (ids : list Z) (attrs : list Attribute)
  : io (result Variable_) :=
  dtype <-? readU32 ;;
  vsize <-? readU32 ;;
  offset <-? readU32 ;;
  Ret (Ok (mkVariable name ids dtype vsize offset attrs)).

(** [Open] returned [( nil, e )] after closing the file. *)
Definition failed (e : error) (s : os.state)
  : (option File * option error) * os.state :=
  ((None, Some e), snd (os.Close s)).

(** ** The order of the lists as the specification gives it *)

Module Spec.

(** Steps 4 to 6 of the specification's Header Assembler, over this
    package's own list decoders: the dimension list, then the global
    attribute list (tag [0x0C]), then the variable list.  [File] has no
    field for global attributes, so the decoded sequence is dropped. *)
Definition headerLists (nc : File) : io (option File * option error) :=
  r <- readDimList nc ;;
  match r with
  | Err e => _ <- f_Close ;; Ret (None, Some e)
  | Ok nc =>
      r <- readAttrList ;;
      match r with
      | Err e => _ <- f_Close ;; Ret (None, Some e)
      | Ok _ =>
          r <- readVarList nc ;;
          match r with
          | Err e => _ <- f_Close ;; Ret (None, Some e)
          | Ok nc => Ret (Some nc, None)
          end
      end
  end.

End Spec.

Definition CDF : list byte := [x43; x44; x46].

(** The header of a file that starts with the magic and a supported format
    byte and is at least 8 bytes long. *)
Definition valid_header (d : list byte) : Prop :=
  (8 <= List.length d)%nat /\ firstn 3 d = CDF
  /\ (nth 3 d x00 = ClassicFormat \/ nth 3 d x00 = Format64BitOffset).

(** [nc] as [Open] builds it before the lists are read. *)
Definition initial_File (path : string) (d : list byte) : File :=
  mkFile (os.mkFile path) (nth 3 d x00) (BigEndian_Uint32 (os.slice d 4 4))
         [] [].

(** ** Sample files *)

(** A file system holding one file. *)
Definition single_file (path : string) (d : list byte) : os.FileSystem :=
  fun p => if String.eqb p path then Some d else None.

(** Magic, Classic format, [numrecs = 0], and the dimension list
    [[("lat", 180)]]: 28 bytes. *)
Definition header_lat : list byte :=
  [x43; x44; x46; x01;   x00; x00; x00; x00;
   x00; x00; x00; x0a;   x00; x00; x00; x01;
   x00; x00; x00; x03;   x6c; x61; x74; x00;
   x00; x00; x00; xb4].


(** A single zero word: an absent list. *)
Definition absent_list : list byte := [x00; x00; x00; x00].

(** Variable list: tag [0x0B], one variable ["temp"], one dimension id [0],
    no attributes, type 5, vsize 720, offset 1024. *)
Definition var_list_temp : list byte :=
  [x00; x00; x00; x0b;   x00; x00; x00; x01;
   x00; x00; x00; x04;   x74; x65; x6d; x70;
   x00; x00; x00; x01;   x00; x00; x00; x00;
   x00; x00; x00; x00;
   x00; x00; x00; x05;   x00; x00; x02; xd0;   x00; x00; x04; x00].

(** Global attribute list: tag [0x0C], one attribute ["id"] of type 2 with
    the single value byte ["x"]. *)
Definition gatt_list_id : list byte :=
  [x00; x00; x00; x0c;   x00; x00; x00; x01;
   x00; x00; x00; x02;   x69; x64; x00; x00;
   x00; x00; x00; x02;   x00; x00; x00; x01;   x78; x00; x00; x00].

(** [header_lat] up to the dimension list's tag word, which is [0x0D]. *)
Definition bad_dim_tag : list byte :=
  [x43; x44; x46; x01;   x00; x00; x00; x00;
   x00; x00; x00; x0d;   x00; x00; x00; x01].

(** A CDF-2 file whose one variable carries an 8-byte offset 1024, as the
    NetCDF grammar has it for the 64-bit-offset format. *)
Definition cdf2_wide_offset : list byte :=
  [x43; x44; x46; x02;   x00; x00; x00; x00;
   x00; x00; x00; x00;
   x00; x00; x00; x0b;   x00; x00; x00; x01;
   x00; x00; x00; x04;   x74; x65; x6d; x70;
   x00; x00; x00; x00;
   x00; x00; x00; x00;
   x00; x00; x00; x05;   x00; x00; x02; xd0;
   x00; x00; x00; x00;   x00; x00; x04; x00].

(** [header_lat], a global attribute list, the variable list. *)
Definition file_with_gatt : list byte :=
  header_lat ++ gatt_list_id ++ var_list_temp.

(** [header_lat], an absent global attribute list, the variable list. *)
Definition file_absent_gatt : list byte :=
  header_lat ++ absent_list ++ var_list_temp.

(** [header_lat] and the variable list directly after it. *)
Definition file_no_gatt : list byte := header_lat ++ var_list_temp.

(** [file_no_gatt] after its format byte. *)
Definition body_no_gatt : list byte := Eval cbv in skipn 4 file_no_gatt.


Definition temp_var : Variable_ :=
  mkVariable "temp" [0] 5 720 1024 [].

Definition lat_dim : Dimension := mkDimension "lat" 180.

(** ** The rest of the sources *)


(** The earlier version of the package kept beside the current one: the
    same [readU32], [readString] and dimension loop, a [File] without
    variables, and an [Open] that stops after the dimension list. *)
Module Prototype.

Record File : Type := mkFile {
  f : os.File;
  Format : byte;
  NumRecs : Z;
  Dims : list Dimension
}.

Definition set_Dims (nc : File) (dims : list Dimension) : File :=
  mkFile (f nc) (Format nc) (NumRecs nc) dims.

Definition readDimList (nc : File) : io (result File) :=
  tag <-? readU32 ;;
  if tag =? 0 then Ret (Ok (set_Dims nc []))
  else if negb (tag =? 0x0A) then Ret (Err (InvalidDimListTag tag))
  else
    nelems <-? readU32 ;;
    dims <-? readDims (Z.to_nat nelems) [] ;;
    Ret (Ok (set_Dims nc dims)).

Definition Open_file (h : os.File) : io (option File * option error) :=
  '(header, _, err) <- f_Read 4 ;;
  match err with
  | Some e => _ <- f_Close ;; Ret (None, Some e)
  | None =>
      if negb (String.eqb (string_of_list_byte (firstn 3 header)) "CDF") then
        _ <- f_Close ;; Ret (None, Some NotNetCDF)
      else
        let format := nth 3 header x00 in
        if negb (Byte.eqb format ClassicFormat)
           && negb (Byte.eqb format Format64BitOffset) then
          _ <- f_Close ;; Ret (None, Some (UnsupportedFormat format))
        else
          '(buf, _, err) <- f_Read 4 ;;
          match err with
          | Some e => _ <- f_Close ;; Ret (None, Some e)
          | None =>
              let numrecs := BigEndian_Uint32 buf in
              let nc := mkFile h format numrecs [] in
              r <- readDimList nc ;;
              match r with
              | Err e => _ <- f_Close ;; Ret (None, Some e)
              | Ok nc => Ret (Some nc, None)
              end
          end
  end.

Definition Open (fs : os.FileSystem) (path : string)
  : option File * option error :=
  match os.Open fs path with
  | Err err => (None, Some err)
  | Ok (h, s) => fst (exec (Open_file h) s)
  end.

End Prototype.

(** What the current [File] shows to a caller written for the earlier one. *)
Definition as_Prototype (nc : File) : Prototype.File :=
  Prototype.mkFile (f nc) (Format nc) (NumRecs nc) (Dims nc).

(** The command of [package main].  Standard output is kept as one string
    per print call, without the newline that ends it; the duration printed
    last is an input.  [log.Fatal(err)] writes [err] to standard error behind
    a time stamp and exits with status 1. *)
Record Output : Type := mkOutput {
  stdout : list string;
  fatal : option error;
  exit_status : Z
}.

Definition main_path : string := "argo_2019_01/nodc_D1900975_339.nc".

Definition main (fs : os.FileSystem) (elapsed : string) : Output :=
  match Open fs main_path with
  | (_, Some err) => mkOutput [] (Some err) 1
  | (None, None) => mkOutput [] None 2      (* [nc.Format] on a nil pointer *)
  | (Some nc, None) =>
      mkOutput
        ((if Byte.eqb (Format nc) ClassicFormat
          then "Format: Classic (CDF-1)"
          else "Format: 64-bit Offset (CDF-2)")%string
         :: ("NumRecs: " ++ fmt_d (NumRecs nc))%string
         :: "Dimensions:"%string
         :: map (fun d => ("  " ++ Dimension_Name d ++ " = "
                           ++ fmt_d (Dimension_Length d))%string)
                (Dims nc)
         ++ [("Total execution time: " ++ elapsed)%string])
        None 0
  end.

(** ** The byte layout the decoders read *)

Module Wire.

Definition byte_of_Z (z : Z) : byte :=
  match Byte.of_N (Z.to_N (z mod 256)) with
  | Some b => b
  | None => x00
  end.

(** A 32-bit word, most significant byte first. *)
Definition u32 (n : Z) : list byte :=
  [byte_of_Z (n / 2 ^ 24); byte_of_Z (n / 2 ^ 16);
   byte_of_Z (n / 2 ^ 8); byte_of_Z n].

Definition len (l : list byte) : Z := Z.of_nat (List.length l).

(** Length word, payload, zero padding to a multiple of 4. *)
Definition bytes (payload : list byte) : list byte :=
  u32 (len payload) ++ payload ++ os.zeros (padding (len payload)).

Definition text (s : string) : list byte := bytes (list_byte_of_string s).

Definition dim (d : Dimension) : list byte :=
  text (Dimension_Name d) ++ u32 (Dimension_Length d).

Definition dim_list (dims : list Dimension) : list byte :=
  u32 0x0A ++ u32 (Z.of_nat (List.length dims)) ++ flat_map dim dims.

Definition attr (a : Attribute) : list byte :=
  text (Attribute_Name a) ++ u32 (Attribute_Type a)
  ++ bytes (Attribute_Values a).

Definition attr_list (attrs : list Attribute) : list byte :=
  u32 0x0C ++ u32 (Z.of_nat (List.length attrs)) ++ flat_map attr attrs.

(** The offset is one 32-bit word, in both formats. *)
Definition var (v : Variable_) : list byte :=
  text (Variable_Name v)
  ++ u32 (Z.of_nat (List.length (DimIDs v))) ++ flat_map u32 (DimIDs v)
  ++ attr_list (Attrs v)
  ++ u32 (DataType v) ++ u32 (VSize v) ++ u32 (Offset v).

Definition var_list (vars : list Variable_) : list byte :=
  u32 0x0B ++ u32 (Z.of_nat (List.length vars)) ++ flat_map var vars.

(** Magic, format byte, record count, dimension list, variable list: what
    [Open] reads, with no global attribute list. *)
Definition header (nc : File) : list byte :=
  [x43; x44; x46; Format nc] ++ u32 (NumRecs nc)
  ++ dim_list (Dims nc) ++ var_list (Vars nc).







End Wire.

(** The open file whose bytes before the offset are [pre] and whose bytes
    from the offset on are [rest]. *)
Definition at_split (pre rest : list byte) : os.state :=
  os.mkState (pre ++ rest) (Z.of_nat (List.length pre)) false.

(** An open file at an offset that is not negative. *)
Definition opened (s : os.state) : Prop :=
  os.closed s = false /\ 0 <= os.offset s.

(** A decoder that leaves an open file open and fails only with errors
    in [P]. *)
Definition decodes {A : Type} (P : error -> Prop) (m : io (result A)) : Prop :=
  forall s, opened s ->
    opened (snd (exec m s))
    /\ forall e, fst (exec m s) = Err e -> P e.

Definition eof_only (e : error) : Prop := e = EOF.

Definition dim_list_error (e : error) : Prop :=
  e = EOF \/ exists tag, e = InvalidDimListTag tag /\ tag <> 0 /\ tag <> 0x0A.

Definition attr_list_error (e : error) : Prop :=
  e = EOF \/ exists tag, e = InvalidAttrListTag tag /\ tag <> 0 /\ tag <> 0x0C.

Definition var_list_error (e : error) : Prop :=
  attr_list_error e
  \/ exists tag, e = InvalidVarListTag tag /\ tag <> 0 /\ tag <> 0x0B.


(** How many [Read] calls of the run copied position [i]. *)
Definition read_count (tr : list event) (i : Z) : nat :=
  List.length
    (filter (fun ev => match ev with
                       | EvRead a b => in_range a b i
                       | _ => false
                       end) tr).

(** Where [Open] leaves the offset of the file it opened. *)
Definition Open_end (path : string) (d : list byte) : Z :=
  os.offset (snd (exec (Open_file (os.mkFile path)) (os.mkState d 0 false))).

(** The shortest file [Open] accepts: a header, an absent dimension list,
    and one byte of the variable list's tag word. *)
Definition shortest_accepted : list byte :=
  [x43; x44; x46; x01;   x00; x00; x00; x00;
   x00; x00; x00; x00;   x00].



(** * Lemmas *)

Ltac bool_to_prop :=
  repeat match goal with
  | H : (_ <? _) = true |- _ => apply Z.ltb_lt in H
  | H : (_ <? _) = false |- _ => apply Z.ltb_ge in H
  | H : (_ <=? _) = true |- _ => apply Z.leb_le in H
  | H : (_ <=? _) = false |- _ => apply Z.leb_gt in H
  | H : (_ =? _) = true |- _ => apply Z.eqb_eq in H
  | H : (_ =? _) = false |- _ => apply Z.eqb_neq in H
  end.
Ltac zlia := bool_to_prop; lia.

(** ** The monad *)

Lemma exec_bind {A B : Type} (m : io A) (k : A -> io B) (s : os.state) :
  exec (bind m k) s = exec (k (fst (exec m s))) (snd (exec m s)).
Proof.
  revert s; induction m as [a|len k' IH|off wh k' IH|k' IH]; intros s; simpl.
  - reflexivity.
  - destruct (os.Read s len) as [r s']; apply IH.
  - destruct (os.Seek s off wh) as [r s']; apply IH.
  - destruct (os.Close s) as [r s']; apply IH.
Qed.

Lemma exec_try {A B : Type} (m : io (result A)) (k : A -> io (result B)) s :
  exec (try m k) s =
  match fst (exec m s) with
  | Ok a => exec (k a) (snd (exec m s))
  | Err e => (Err e, snd (exec m s))
  end.
Proof.
  unfold try; rewrite exec_bind. destruct (fst (exec m s)); reflexivity.
Qed.

Lemma exec_try_Ok {A B : Type} (m : io (result A)) (k : A -> io (result B))
      s a s' :
  exec m s = (Ok a, s') -> exec (try m k) s = exec (k a) s'.
Proof. intros H; rewrite exec_try, H; reflexivity. Qed.

Lemma exec_try_Err {A B : Type} (m : io (result A)) (k : A -> io (result B))
      s e s' :
  exec m s = (Err e, s') -> exec (try m k) s = (Err e, s').
Proof. intros H; rewrite exec_try, H; reflexivity. Qed.

Lemma forward_bind {A B : Type} (m : io A) (k : A -> io B) :
  forward m -> (forall a, forward (k a)) -> forward (bind m k).
Proof.
  intros Hm Hk; induction Hm; simpl; try constructor; auto.
Qed.

Lemma forward_try {A B : Type} (m : io (result A)) (k : A -> io (result B)) :
  forward m -> (forall a, forward (k a)) -> forward (try m k).
Proof.
  intros Hm Hk; apply forward_bind; [exact Hm|].
  intros [a|e]; [apply Hk | constructor].
Qed.

(** ** The file *)

Lemma Read_data s len : os.data (snd (os.Read s len)) = os.data s.
Proof.
  unfold os.Read. destruct (os.closed s); [reflexivity|].
  destruct (len <=? 0); [reflexivity|].
  destruct (Z.min len (os.size s - os.offset s) <=? 0); reflexivity.
Qed.

Lemma Seek_data s off wh : os.data (snd (os.Seek s off wh)) = os.data s.
Proof.
  unfold os.Seek. destruct (os.closed s); [reflexivity|].
  match goal with |- context [if ?c <? 0 then _ else _] => destruct (c <? 0) end;
    reflexivity.
Qed.

Lemma Close_data s : os.data (snd (os.Close s)) = os.data s.
Proof. unfold os.Close. destruct (os.closed s); reflexivity. Qed.

Lemma Read_offset_le s len : os.offset s <= os.offset (snd (os.Read s len)).
Proof.
  unfold os.Read. destruct (os.closed s); [simpl; lia|].
  destruct (len <=? 0); [simpl; lia|].
  destruct (Z.min len (os.size s - os.offset s) <=? 0) eqn:E; simpl; lia.
Qed.

Lemma Seek_cur_offset_le s off :
  0 <= off -> os.offset s <= os.offset (snd (os.Seek s off 1)).
Proof.
  intros H. unfold os.Seek. destruct (os.closed s); [simpl; lia|].
  simpl. destruct (os.offset s + off <? 0); simpl; lia.
Qed.

Lemma Seek_offset_nonneg s off wh :
  0 <= os.offset s -> 0 <= os.offset (snd (os.Seek s off wh)).
Proof.
  intros H. unfold os.Seek. destruct (os.closed s); [simpl; lia|].
  match goal with |- context [if ?c <? 0 then _ else _] =>
    destruct (c <? 0) eqn:E end; simpl; lia.
Qed.

Lemma Close_offset s : os.offset (snd (os.Close s)) = os.offset s.
Proof. unfold os.Close. destruct (os.closed s); reflexivity. Qed.

Lemma Read_full s len :
  os.closed s = false -> 0 < len -> os.offset s + len <= os.size s ->
  os.Read s len =
  ((os.slice (os.data s) (os.offset s) len, len, None),
   os.mkState (os.data s) (os.offset s + len) false).
Proof.
  intros Hc Hl Hs. unfold os.Read. rewrite Hc.
  destruct (len <=? 0) eqn:E; [lia|].
  rewrite Z.min_l by lia.
  rewrite E, Z.sub_diag. unfold os.zeros; simpl.
  rewrite app_nil_r. reflexivity.
Qed.


Lemma Read_eof s len :
  os.closed s = false -> 0 < len -> os.size s <= os.offset s ->
  os.Read s len = ((os.zeros len, 0, Some EOF), s).
Proof.
  intros Hc Hl Hs. unfold os.Read. rewrite Hc.
  destruct (len <=? 0) eqn:E; [lia|].
  destruct (Z.min len (os.size s - os.offset s) <=? 0) eqn:E'; [reflexivity|lia].
Qed.

Lemma Seek_cur s off :
  os.closed s = false -> 0 <= os.offset s + off ->
  os.Seek s off 1 = ((os.offset s + off, None),
                     os.mkState (os.data s) (os.offset s + off) false).
Proof.
  intros Hc Hp. unfold os.Seek. rewrite Hc. simpl.
  destruct (os.offset s + off <? 0) eqn:E; [lia|reflexivity].
Qed.

Lemma nth_error_slice d off n k :
  0 <= off ->
  nth_error (os.slice d off n) k =
  if Nat.ltb k (Z.to_nat n) then byte_at d (off + Z.of_nat k) else None.
Proof.
  intros Hoff. unfold os.slice, byte_at.
  rewrite nth_error_firstn, nth_error_skipn.
  destruct (Nat.ltb k (Z.to_nat n)); [|reflexivity].
  destruct (off + Z.of_nat k <? 0) eqn:E; [zlia|].
  f_equal; lia.
Qed.

Lemma slice_agree d1 d2 off n :
  0 <= off ->
  (forall i, off <= i < off + n -> byte_at d1 i = byte_at d2 i) ->
  os.slice d1 off n = os.slice d2 off n.
Proof.
  intros Hoff H. apply nth_error_ext; intros k.
  rewrite !nth_error_slice by assumption.
  destruct (Nat.ltb k (Z.to_nat n)) eqn:E; [|reflexivity].
  apply Nat.ltb_lt in E. apply H; lia.
Qed.

(** ** A run depends only on the bytes it reads *)

Lemma Read_agree s1 s2 len :
  same_cursor s1 s2 -> 0 <= os.offset s1 ->
  (forall i, os.offset s1 <= i < os.offset (snd (os.Read s1 len)) ->
             byte_at (os.data s1) i = byte_at (os.data s2) i) ->
  fst (os.Read s1 len) = fst (os.Read s2 len)
  /\ same_cursor (snd (os.Read s1 len)) (snd (os.Read s2 len)).
Proof.
  destruct s1 as [d1 o1 c1], s2 as [d2 o2 c2].
  unfold same_cursor, os.Read, os.size; simpl.
  intros (-> & -> & Hlen) Ho. rewrite Hlen.
  destruct c2; [intros _; auto|].
  destruct (len <=? 0); [intros _; auto|].
  destruct (Z.min len (Z.of_nat (Datatypes.length d2) - o2) <=? 0);
    [intros _; auto|].
  simpl. intros H. rewrite (slice_agree d1 d2 o2 _ Ho) by (intros; apply H; lia).
  auto.
Qed.

Lemma Seek_agree s1 s2 off wh :
  same_cursor s1 s2 ->
  fst (os.Seek s1 off wh) = fst (os.Seek s2 off wh)
  /\ same_cursor (snd (os.Seek s1 off wh)) (snd (os.Seek s2 off wh)).
Proof.
  destruct s1 as [d1 o1 c1], s2 as [d2 o2 c2].
  unfold same_cursor, os.Seek, os.size; simpl.
  intros (-> & -> & Hlen). rewrite Hlen.
  destruct c2; [auto|].
  match goal with |- context [if ?c <? 0 then _ else _] => destruct (c <? 0) end;
    simpl; auto.
Qed.

Lemma Close_agree s1 s2 :
  same_cursor s1 s2 ->
  fst (os.Close s1) = fst (os.Close s2)
  /\ same_cursor (snd (os.Close s1)) (snd (os.Close s2)).
Proof.
  destruct s1 as [d1 o1 c1], s2 as [d2 o2 c2].
  unfold same_cursor, os.Close; simpl.
  intros (-> & -> & Hlen). destruct c2; simpl; auto.
Qed.

Lemma Read_offset_nonneg s len :
  0 <= os.offset s -> 0 <= os.offset (snd (os.Read s len)).
Proof. intros H; pose proof (Read_offset_le s len); lia. Qed.

Lemma in_range_spec a b i : in_range a b i = true <-> a <= i < b.
Proof. unfold in_range. rewrite andb_true_iff, Z.leb_le, Z.ltb_lt. tauto. Qed.

Lemma exec_agree {A : Type} (m : io A) :
  forall s1 s2,
    same_cursor s1 s2 -> 0 <= os.offset s1 ->
    (forall i, readb (trace m s1) i = true ->
               byte_at (os.data s1) i = byte_at (os.data s2) i) ->
    fst (exec m s1) = fst (exec m s2)
    /\ same_cursor (snd (exec m s1)) (snd (exec m s2))
    /\ trace m s1 = trace m s2.
Proof.
  induction m as [a|len k IH|off wh k IH|k IH]; intros s1 s2 Hc Ho Hd; simpl.
  - auto.
  - simpl in Hd.
    destruct (Read_agree s1 s2 len Hc Ho) as [Hr Hc'].
    { intros i Hi. apply Hd.
      destruct (os.Read s1 len) as [r1 s1']; simpl in *.
      apply orb_true_iff; left. apply in_range_spec; lia. }
    pose proof (Read_data s1 len) as D1. pose proof (Read_data s2 len) as D2.
    pose proof (Read_offset_nonneg s1 len Ho) as Ho'.
    assert (Hoff : os.offset s1 = os.offset s2) by apply Hc.
    destruct (os.Read s1 len) as [r1 s1'], (os.Read s2 len) as [r2 s2'].
    simpl in *. subst r2.
    destruct (IH r1 s1' s2' Hc' Ho') as (E1 & E2 & E3).
    { intros i Hi. rewrite D1, D2. apply Hd. rewrite Hi. apply orb_true_r. }
    repeat split; try assumption; try apply E2.
    rewrite E3, Hoff. f_equal. f_equal. apply Hc'.
  - simpl in Hd.
    destruct (Seek_agree s1 s2 off wh Hc) as [Hr Hc'].
    pose proof (Seek_data s1 off wh) as D1. pose proof (Seek_data s2 off wh) as D2.
    pose proof (Seek_offset_nonneg s1 off wh Ho) as Ho'.
    assert (Hoff : os.offset s1 = os.offset s2) by apply Hc.
    destruct (os.Seek s1 off wh) as [r1 s1'], (os.Seek s2 off wh) as [r2 s2'].
    simpl in *. subst r2.
    destruct (IH r1 s1' s2' Hc' Ho') as (E1 & E2 & E3).
    { intros i Hi. rewrite D1, D2. apply Hd. exact Hi. }
    repeat split; try assumption; try apply E2.
    rewrite E3, Hoff. f_equal. f_equal. apply Hc'.
  - simpl in Hd.
    destruct (Close_agree s1 s2 Hc) as [Hr Hc'].
    pose proof (Close_data s1) as D1. pose proof (Close_data s2) as D2.
    pose proof (Close_offset s1) as Ho'.
    destruct (os.Close s1) as [r1 s1'], (os.Close s2) as [r2 s2'].
    simpl in *. subst r2.
    destruct (IH r1 s1' s2' Hc') as (E1 & E2 & E3).
    { lia. }
    { intros i Hi. rewrite D1, D2. apply Hd. exact Hi. }
    repeat split; try assumption; try apply E2.
    rewrite E3. reflexivity.
Qed.

(** ** A forward program never reads what it has stepped over *)

Lemma chain_weaken tr : forall p p', p' <= p -> chain p tr -> chain p' tr.
Proof.
  induction tr as [|[a b|a b|] tr IH]; simpl; intros p p' Hp H.
  - exact I.
  - intuition lia.
  - intuition lia.
  - eauto.
Qed.

Lemma chain_readb_lower tr : forall p i,
  chain p tr -> readb tr i = true -> p <= i.
Proof.
  induction tr as [|[a b|a b|] tr IH]; simpl; intros p i H Hr.
  - discriminate.
  - destruct H as (H1 & H2 & H3). apply orb_true_iff in Hr as [Hr|Hr].
    + apply in_range_spec in Hr. lia.
    + specialize (IH b i H3 Hr). lia.
  - destruct H as (H1 & H2 & H3). specialize (IH b i H3 Hr). lia.
  - eauto.
Qed.

Lemma chain_skippedb_lower tr : forall p i,
  chain p tr -> skippedb tr i = true -> p <= i.
Proof.
  induction tr as [|[a b|a b|] tr IH]; simpl; intros p i H Hr.
  - discriminate.
  - destruct H as (H1 & H2 & H3). specialize (IH b i H3 Hr). lia.
  - destruct H as (H1 & H2 & H3). apply orb_true_iff in Hr as [Hr|Hr].
    + apply in_range_spec in Hr. lia.
    + specialize (IH b i H3 Hr). lia.
  - eauto.
Qed.

Lemma chain_read_not_skipped tr : forall p i,
  chain p tr -> readb tr i = true -> skippedb tr i = false.
Proof.
  induction tr as [|[a b|a b|] tr IH]; simpl; intros p i H Hr.
  - reflexivity.
  - destruct H as (H1 & H2 & H3). apply orb_true_iff in Hr as [Hr|Hr].
    + apply in_range_spec in Hr.
      destruct (skippedb tr i) eqn:E; [|reflexivity].
      pose proof (chain_skippedb_lower tr b i H3 E). lia.
    + eauto.
  - destruct H as (H1 & H2 & H3).
    pose proof (chain_readb_lower tr b i H3 Hr).
    apply orb_false_iff; split; [|eauto].
    destruct (in_range a b i) eqn:E; [|reflexivity].
    apply in_range_spec in E. lia.
  - eauto.
Qed.

Lemma forward_chain {A : Type} (m : io A) :
  forward m -> forall s, chain (os.offset s) (trace m s).
Proof.
  induction 1 as [a|len k Hk IH|off k Hoff Hk IH|k Hk IH]; intros s; simpl.
  - exact I.
  - pose proof (Read_offset_le s len).
    destruct (os.Read s len) as [r s']; simpl in *.
    repeat split; try lia. apply IH.
  - pose proof (Seek_cur_offset_le s off Hoff).
    destruct (os.Seek s off 1) as [r s']; simpl in *.
    repeat split; try lia. apply IH.
  - pose proof (Close_offset s).
    destruct (os.Close s) as [r s']; simpl in *.
    rewrite <- H. apply IH.
Qed.



(** ** The decoders only move forward *)

Lemma padding_eq n : padding n = (4 - n mod 4) mod 4.
Proof.
  unfold padding, u32.
  pose proof (Z.mod_pos_bound n 4 ltac:(lia)).
  rewrite (Z.mod_small (4 - n mod 4) (2 ^ 32)) by lia. reflexivity.
Qed.

Lemma padding_range n : 0 <= padding n < 4.
Proof. rewrite padding_eq. apply Z.mod_pos_bound; lia. Qed.

Lemma padding_nonneg n : 0 <= padding n.
Proof. apply padding_range. Qed.

Create HintDb fwd.

Ltac fwd_step :=
  match goal with
  | |- forward (try _ _) => apply forward_try
  | |- forward (bind _ _) => apply forward_bind
  | |- forward (f_Read _) => unfold f_Read
  | |- forward (f_Seek _ _) => unfold f_Seek
  | |- forward f_Close => unfold f_Close
  | |- forward (Seek _ 1 _) => apply forward_Seek; [apply padding_nonneg|]
  | |- forward (Ret _) => constructor
  | |- forward (Read _ _) => constructor
  | |- forward (Close _) => constructor
  | |- forward (match ?x with _ => _ end) => destruct x
  | |- forward _ => solve [auto with fwd]
  | |- forall _, _ => intro
  end.
Ltac fwd := repeat fwd_step.

Lemma forward_readU32 : forward readU32.
Proof. unfold readU32; fwd. Qed.
#[local] Hint Resolve forward_readU32 : fwd.

Lemma forward_readString : forward readString.
Proof. unfold readString; fwd. Qed.
#[local] Hint Resolve forward_readString : fwd.

Lemma forward_readDim : forward readDim.
Proof. unfold readDim; fwd. Qed.
#[local] Hint Resolve forward_readDim : fwd.

Lemma forward_readDims n : forall dims, forward (readDims n dims).
Proof. induction n; intros dims; simpl; fwd. Qed.
#[local] Hint Resolve forward_readDims : fwd.

Lemma forward_readDimList nc : forward (readDimList nc).
Proof. unfold readDimList; fwd. Qed.
#[local] Hint Resolve forward_readDimList : fwd.

Lemma forward_readAttr : forward readAttr.
Proof. unfold readAttr; fwd. Qed.
#[local] Hint Resolve forward_readAttr : fwd.

Lemma forward_readAttrs n : forall attrs, forward (readAttrs n attrs).
Proof. induction n; intros attrs; simpl; fwd. Qed.
#[local] Hint Resolve forward_readAttrs : fwd.

Lemma forward_readAttrList : forward readAttrList.
Proof. unfold readAttrList; fwd. Qed.
#[local] Hint Resolve forward_readAttrList : fwd.

Lemma forward_readDimIDs n : forall j ids, forward (readDimIDs n j ids).
Proof. induction n; intros j ids; simpl; fwd. Qed.
#[local] Hint Resolve forward_readDimIDs : fwd.

Lemma forward_readVar : forward readVar.
Proof. unfold readVar; fwd. Qed.
#[local] Hint Resolve forward_readVar : fwd.

Lemma forward_readVars n : forall vars, forward (readVars n vars).
Proof. induction n; intros vars; simpl; fwd. Qed.
#[local] Hint Resolve forward_readVars : fwd.

Lemma forward_readVarList nc : forward (readVarList nc).
Proof. unfold readVarList; fwd. Qed.
#[local] Hint Resolve forward_readVarList : fwd.

Lemma forward_Open_lists nc : forward (Open_lists nc).
Proof. unfold Open_lists; fwd. Qed.
#[local] Hint Resolve forward_Open_lists : fwd.

Lemma forward_Open_numrecs h format : forward (Open_numrecs h format).
Proof. unfold Open_numrecs; fwd. Qed.
#[local] Hint Resolve forward_Open_numrecs : fwd.

Lemma forward_Open_file h : forward (Open_file h).
Proof. unfold Open_file; fwd. Qed.

(** ** Primitive decoders *)



Lemma exec_readU32 s :
  exec readU32 s =
  match os.Read s 4 with
  | ((_, _, Some e), s') => (Err e, s')
  | ((buf, _, None), s') => (Ok (BigEndian_Uint32 buf), s')
  end.
Proof.
  unfold readU32, f_Read; simpl.
  destruct (os.Read s 4) as [[[buf n] [e|]] s']; reflexivity.
Qed.

Lemma readU32_full s :
  os.closed s = false -> os.offset s + 4 <= os.size s ->
  exec readU32 s =
  (Ok (BigEndian_Uint32 (os.slice (os.data s) (os.offset s) 4)), advance s 4).
Proof.
  intros Hc Hs. rewrite exec_readU32, Read_full by (assumption || lia).
  reflexivity.
Qed.

Lemma readU32_eof s :
  os.closed s = false -> os.size s <= os.offset s ->
  exec readU32 s = (Err EOF, s).
Proof.
  intros Hc Hs. rewrite exec_readU32, Read_eof by (assumption || lia).
  reflexivity.
Qed.

Lemma exec_f_Read_bind {B : Type} len (k : _ -> io B) s :
  exec (bind (f_Read len) k) s =
  exec (k (fst (os.Read s len))) (snd (os.Read s len)).
Proof. unfold f_Read; simpl. destruct (os.Read s len); reflexivity. Qed.

Lemma exec_f_Seek_bind {B : Type} off wh (k : _ -> io B) s :
  exec (bind (f_Seek off wh) k) s =
  exec (k (fst (os.Seek s off wh))) (snd (os.Seek s off wh)).
Proof. unfold f_Seek; simpl. destruct (os.Seek s off wh); reflexivity. Qed.

Lemma exec_f_Close_bind {B : Type} (k : _ -> io B) s :
  exec (bind f_Close k) s =
  exec (k (fst (os.Close s))) (snd (os.Close s)).
Proof. unfold f_Close; simpl. destruct (os.Close s); reflexivity. Qed.





(** ** List decoders *)

Lemma trace_bind {A B : Type} (m : io A) (k : A -> io B) (s : os.state) :
  trace (bind m k) s
  = trace m s ++ trace (k (fst (exec m s))) (snd (exec m s)).
Proof.
  revert s; induction m as [a|len k' IH|off wh k' IH|k' IH]; intros s; simpl.
  - reflexivity.
  - destruct (os.Read s len) as [r s']; simpl. f_equal. apply IH.
  - destruct (os.Seek s off wh) as [r s']; simpl. f_equal. apply IH.
  - destruct (os.Close s) as [r s']; simpl. f_equal. apply IH.
Qed.

Lemma trace_try {A B : Type} (m : io (result A)) (k : A -> io (result B)) s :
  trace (try m k) s =
  trace m s ++ match fst (exec m s) with
               | Ok a => trace (k a) (snd (exec m s))
               | Err _ => []
               end.
Proof.
  unfold try; rewrite trace_bind. destruct (fst (exec m s)); reflexivity.
Qed.

Lemma trace_readU32 s :
  trace readU32 s = [EvRead (os.offset s) (os.offset (snd (exec readU32 s)))].
Proof.
  rewrite exec_readU32. unfold readU32, f_Read; simpl.
  destruct (os.Read s 4) as [[[buf n] [e|]] s']; reflexivity.
Qed.

(** What a list decoder does once its tag word has been read. *)
Lemma readDimList_tag nc s tag s' :
  exec readU32 s = (Ok tag, s') ->
  exec (readDimList nc) s =
  if tag =? 0 then (Ok (set_Dims nc []), s')
  else if negb (tag =? 0x0A) then (Err (InvalidDimListTag tag), s')
  else exec (nelems <-? readU32 ;;
             dims <-? readDims (Z.to_nat nelems) [] ;;
             Ret (Ok (set_Dims nc dims))) s'.
Proof.
  intros H. unfold readDimList. rewrite (exec_try_Ok _ _ _ _ _ H).
  destruct (tag =? 0); [reflexivity|].
  destruct (negb (tag =? 0x0A)); reflexivity.
Qed.

Lemma readAttrList_tag s tag s' :
  exec readU32 s = (Ok tag, s') ->
  exec readAttrList s =
  if tag =? 0 then (Ok [], s')
  else if negb (tag =? 0x0C) then (Err (InvalidAttrListTag tag), s')
  else exec (nelems <-? readU32 ;; readAttrs (Z.to_nat nelems) []) s'.
Proof.
  intros H. unfold readAttrList. rewrite (exec_try_Ok _ _ _ _ _ H).
  destruct (tag =? 0); [reflexivity|].
  destruct (negb (tag =? 0x0C)); reflexivity.
Qed.

Lemma readVarList_tag nc s tag s' :
  exec readU32 s = (Ok tag, s') ->
  exec (readVarList nc) s =
  if tag =? 0 then (Ok (set_Vars nc []), s')
  else if negb (tag =? 0x0B) then (Err (InvalidVarListTag tag), s')
  else exec (nelems <-? readU32 ;;
             vars <-? readVars (Z.to_nat nelems) [] ;;
             Ret (Ok (set_Vars nc vars))) s'.
Proof.
  intros H. unfold readVarList. rewrite (exec_try_Ok _ _ _ _ _ H).
  destruct (tag =? 0); [reflexivity|].
  destruct (negb (tag =? 0x0B)); reflexivity.
Qed.

(** A list decoder whose tag word is zero or wrong reads nothing else. *)
Lemma trace_after_tag {B : Type} (k : Z -> io (result B)) s tag s' :
  exec readU32 s = (Ok tag, s') ->
  (forall s1, trace (k tag) s1 = []) ->
  trace (try readU32 k) s = [EvRead (os.offset s) (os.offset s')].
Proof.
  intros H Hk. rewrite trace_try, trace_readU32, H. simpl. rewrite Hk.
  reflexivity.
Qed.

(** [Open_lists] in terms of its two calls: the variable list is decoded
    from the state the dimension list left. *)
Lemma exec_Open_lists nc s :
  exec (Open_lists nc) s =
  match exec (readDimList nc) s with
  | (Err e, s1) => ((None, Some e), snd (os.Close s1))
  | (Ok nc1, s1) =>
      match exec (readVarList nc1) s1 with
      | (Err e, s2) => ((None, Some e), snd (os.Close s2))
      | (Ok nc2, s2) => ((Some nc2, None), s2)
      end
  end.
Proof.
  unfold Open_lists. rewrite exec_bind.
  destruct (exec (readDimList nc) s) as [[nc1|e] s1]; cbn [fst snd].
  - rewrite exec_bind.
    destruct (exec (readVarList nc1) s1) as [[nc2|e] s2]; cbn [fst snd].
    + reflexivity.
    + rewrite exec_f_Close_bind. reflexivity.
  - rewrite exec_f_Close_bind. reflexivity.
Qed.

(** The loop over [k + n] variables is the loop over [k], then over [n]. *)
Lemma readVars_app k : forall n acc s,
  exec (readVars (k + n) acc) s =
  match exec (readVars k acc) s with
  | (Ok acc', s') => exec (readVars n acc') s'
  | (Err e, s') => (Err e, s')
  end.
Proof.
  induction k as [|k IH]; intros n acc s.
  - reflexivity.
  - cbn [Nat.add readVars]. rewrite !exec_try.
    destruct (exec readVar s) as [[v|e] s1]; cbn [fst snd]; [apply IH|reflexivity].
Qed.


Lemma readVar_at_attrs s0 name ids s :
  var_reaches_attrs s0 name ids s ->
  exec readVar s0 =
  exec (attrs <-? readAttrList ;;
        dtype <-? readU32 ;;
        vsize <-? readU32 ;;
        offset <-? readU32 ;;
        Ret (Ok (mkVariable name ids dtype vsize offset attrs))) s.
Proof.
  intros (s1 & nDims & s2 & H1 & H2 & H3). unfold readVar.
  rewrite (exec_try_Ok _ _ _ _ _ H1), (exec_try_Ok _ _ _ _ _ H2),
          (exec_try_Ok _ _ _ _ _ H3).
  reflexivity.
Qed.

(** ** The header *)

Lemma Open_header fs path d :
  fs path = Some d -> (4 <= List.length d)%nat ->
  Open fs path =
  if negb (String.eqb (string_of_list_byte (firstn 3 d)) "CDF") then
    (None, Some NotNetCDF)
  else if negb (Byte.eqb (nth 3 d x00) ClassicFormat)
          && negb (Byte.eqb (nth 3 d x00) Format64BitOffset) then
    (None, Some (UnsupportedFormat (nth 3 d x00)))
  else fst (exec (Open_numrecs (os.mkFile path) (nth 3 d x00))
                 (os.mkState d 4 false)).
Proof.
  intros Hfs Hlen. unfold Open, os.Open. rewrite Hfs.
  unfold Open_file. rewrite exec_f_Read_bind.
  rewrite Read_full;
    [| reflexivity | lia | unfold os.size; cbn [os.data os.offset]; lia ].
  cbn [fst snd os.data os.offset].
  destruct d as [|a [|b [|c [|fmt rest]]]]; cbn [List.length] in Hlen; try lia.
  change (os.slice (a :: b :: c :: fmt :: rest) 0 4) with [a; b; c; fmt].
  cbn [firstn nth].
  destruct (negb (String.eqb (string_of_list_byte [a; b; c]) "CDF")).
  - rewrite exec_f_Close_bind. reflexivity.
  - destruct (negb (Byte.eqb fmt ClassicFormat)
              && negb (Byte.eqb fmt Format64BitOffset)).
    + rewrite exec_f_Close_bind. reflexivity.
    + reflexivity.
Qed.

Lemma exec_Open_numrecs h format d :
  (8 <= List.length d)%nat ->
  exec (Open_numrecs h format) (os.mkState d 4 false) =
  exec (Open_lists (mkFile h format (BigEndian_Uint32 (os.slice d 4 4)) [] []))
       (os.mkState d 8 false).
Proof.
  intros Hlen. unfold Open_numrecs. rewrite exec_f_Read_bind.
  rewrite Read_full;
    [| reflexivity | lia | unfold os.size; cbn [os.data os.offset]; lia ].
  reflexivity.
Qed.

Lemma CDF_magic l :
  String.eqb (string_of_list_byte l) "CDF" = true <-> l = CDF.
Proof.
  rewrite String.eqb_eq. split.
  - intros H. rewrite <- (list_byte_of_string_of_list_byte l), H. reflexivity.
  - intros ->. reflexivity.
Qed.

Lemma Open_valid_header fs path d :
  fs path = Some d -> valid_header d ->
  Open fs path =
  fst (exec (Open_lists (initial_File path d)) (os.mkState d 8 false)).
Proof.
  intros Hfs (Hlen & Hmagic & Hfmt).
  rewrite (Open_header fs path d Hfs) by lia.
  destruct (CDF_magic (firstn 3 d)) as [_ ->]; [|exact Hmagic].
  cbn [negb].
  assert (E : negb (Byte.eqb (nth 3 d x00) ClassicFormat)
              && negb (Byte.eqb (nth 3 d x00) Format64BitOffset) = false).
  { destruct Hfmt as [-> | ->]; reflexivity. }
  rewrite E, exec_Open_numrecs by exact Hlen. reflexivity.
Qed.

(** * The claims *)

(** ** C3: what [readString] consumes *)




(** ** C4: a zero tag word is an absent list *)

(** C4.  Whenever the tag word a list decoder reads is 0 ([readU32] returns
    0 and leaves the file in [s']), [readDimList], [readAttrList] and
    [readVarList] each return the empty sequence in that same state [s'],
    having done that one read and nothing else (no count word); the word is
    4 bytes when 4 bytes are there.  The parse then goes on: after an absent
    dimension list [Open] decodes the variable list from [s'], after an
    absent attribute list the variable decoder reads its type, vsize and
    offset from [s'], and after an absent variable list [Open] returns the
    file. *)
Theorem zero_tag_is_absent_list : forall s s' : os.state,
  exec readU32 s = (Ok 0, s') ->
  (forall nc,
      exec (readDimList nc) s = (Ok (set_Dims nc []), s')
      /\ trace (readDimList nc) s = [EvRead (os.offset s) (os.offset s')])
  /\ (exec readAttrList s = (Ok [], s')
      /\ trace readAttrList s = [EvRead (os.offset s) (os.offset s')])
  /\ (forall nc,
         exec (readVarList nc) s = (Ok (set_Vars nc []), s')
         /\ trace (readVarList nc) s = [EvRead (os.offset s) (os.offset s')])
  /\ (os.closed s = false -> os.offset s + 4 <= os.size s -> s' = advance s 4)
  /\ (forall nc,
         exec (Open_lists nc) s =
         match exec (readVarList (set_Dims nc [])) s' with
         | (Ok nc', s'') => ((Some nc', None), s'')
         | (Err e, s'') => failed e s''
         end)
  /\ (forall s0 name ids,
         var_reaches_attrs s0 name ids s ->
         exec readVar s0 = exec (readVar_tail name ids []) s')
  /\ (forall nc0 s0 nc1,
         exec (readDimList nc0) s0 = (Ok nc1, s) ->
         exec (Open_lists nc0) s0 = ((Some (set_Vars nc1 []), None), s')).
Proof.
  intros s s' H.
  assert (HD : forall nc, exec (readDimList nc) s = (Ok (set_Dims nc []), s')).
  { intros nc. rewrite (readDimList_tag nc s 0 s' H). reflexivity. }
  assert (HA : exec readAttrList s = (Ok [], s')).
  { rewrite (readAttrList_tag s 0 s' H). reflexivity. }
  assert (HV : forall nc, exec (readVarList nc) s = (Ok (set_Vars nc []), s')).
  { intros nc. rewrite (readVarList_tag nc s 0 s' H). reflexivity. }
  repeat match goal with |- _ /\ _ => split end.
  - intros nc. split; [apply HD|].
    apply trace_after_tag with (tag := 0); [exact H | reflexivity].
  - exact HA.
  - apply trace_after_tag with (tag := 0); [exact H | reflexivity].
  - intros nc. split; [apply HV|].
    apply trace_after_tag with (tag := 0); [exact H | reflexivity].
  - intros Hc Hs. rewrite (readU32_full s Hc Hs) in H.
    inversion H; reflexivity.
  - intros nc. rewrite exec_Open_lists, HD. reflexivity.
  - intros s0 name ids Hr. rewrite (readVar_at_attrs s0 name ids s Hr).
    rewrite (exec_try_Ok _ _ _ _ _ HA). reflexivity.
  - intros nc0 s0 nc1 H0. rewrite exec_Open_lists, H0, HV. reflexivity.
Qed.

(** The file [header_lat ++ absent_list] after its dimension list, at
    offset 28: the zero word is the variable list's tag. *)
Lemma zero_tag_is_absent_list_witness :
  exec (readVarList (mkFile (os.mkFile "a.nc") ClassicFormat 0 [lat_dim] []))
       (os.mkState (header_lat ++ absent_list) 28 false)
  = (Ok (mkFile (os.mkFile "a.nc") ClassicFormat 0 [lat_dim] []),
     os.mkState (header_lat ++ absent_list) 32 false)
  /\ trace (readVarList (mkFile (os.mkFile "a.nc") ClassicFormat 0 [lat_dim] []))
           (os.mkState (header_lat ++ absent_list) 28 false)
     = [EvRead 28 32].
Proof.
  exact (proj1 (proj2 (proj2
    (zero_tag_is_absent_list
       (os.mkState (header_lat ++ absent_list) 28 false)
       (os.mkState (header_lat ++ absent_list) 32 false)
       eq_refl)))
    (mkFile (os.mkFile "a.nc") ClassicFormat 0 [lat_dim] [])).
Defined.

(** ** C5: a wrong tag word is fatal *)

(** C5.  Whenever the tag word a list decoder reads is neither 0 nor the tag
    of that list ([0x0A] dimensions, [0x0C] attributes, [0x0B] variables),
    the decoder fails with the tag error of that list, carrying the word
    found, after that one read; and [Open] returns no file and that error:
    for the dimension list, for the variable list that follows a decoded
    dimension list, and for the attribute list of any variable of the
    variable list ([k] variables decoded before it). *)
Theorem wrong_tag_is_fatal : forall (s s' : os.state) (tag : Z),
  exec readU32 s = (Ok tag, s') -> tag <> 0 ->
  (tag <> 0x0A ->
   forall nc,
     exec (readDimList nc) s = (Err (InvalidDimListTag tag), s')
     /\ trace (readDimList nc) s = [EvRead (os.offset s) (os.offset s')]
     /\ exec (Open_lists nc) s = failed (InvalidDimListTag tag) s'
     /\ (forall fs path d,
            fs path = Some d -> valid_header d -> s = os.mkState d 8 false ->
            nc = initial_File path d ->
            Open fs path = (None, Some (InvalidDimListTag tag))))
  /\ (tag <> 0x0B ->
      forall nc,
        exec (readVarList nc) s = (Err (InvalidVarListTag tag), s')
        /\ trace (readVarList nc) s = [EvRead (os.offset s) (os.offset s')]
        /\ (forall nc0 s0,
               exec (readDimList nc0) s0 = (Ok nc, s) ->
               exec (Open_lists nc0) s0 = failed (InvalidVarListTag tag) s'
               /\ (forall fs path d,
                      fs path = Some d -> valid_header d ->
                      s0 = os.mkState d 8 false ->
                      nc0 = initial_File path d ->
                      Open fs path = (None, Some (InvalidVarListTag tag)))))
  /\ (tag <> 0x0C ->
      exec readAttrList s = (Err (InvalidAttrListTag tag), s')
      /\ trace readAttrList s = [EvRead (os.offset s) (os.offset s')]
      /\ (forall sv name ids,
             var_reaches_attrs sv name ids s ->
             exec readVar sv = (Err (InvalidAttrListTag tag), s')
             /\ (forall nc0 s0 nc1 s1 s2 nelems s3 k n acc,
                    exec (readDimList nc0) s0 = (Ok nc1, s1) ->
                    exec readU32 s1 = (Ok 0x0B, s2) ->
                    exec readU32 s2 = (Ok nelems, s3) ->
                    Z.to_nat nelems = (k + S n)%nat ->
                    exec (readVars k []) s3 = (Ok acc, sv) ->
                    exec (Open_lists nc0) s0
                    = failed (InvalidAttrListTag tag) s'
                    /\ (forall fs path d,
                           fs path = Some d -> valid_header d ->
                           s0 = os.mkState d 8 false ->
                           nc0 = initial_File path d ->
                           Open fs path
                           = (None, Some (InvalidAttrListTag tag)))))).
Proof.
  intros s s' tag H H0.
  assert (E0 : (tag =? 0) = false) by (apply Z.eqb_neq; exact H0).
  split; [|split].
  - intros Hne nc.
    assert (E : (tag =? 0x0A) = false) by (apply Z.eqb_neq; exact Hne).
    assert (HD : exec (readDimList nc) s = (Err (InvalidDimListTag tag), s')).
    { rewrite (readDimList_tag nc s tag s' H), E0, E. reflexivity. }
    split; [exact HD|]. split; [|split].
    + apply trace_after_tag with (tag := tag); [exact H|].
      intros s1. rewrite E0, E. reflexivity.
    + rewrite exec_Open_lists, HD. reflexivity.
    + intros fs path d Hfs Hv Hs Hnc. subst s nc.
      rewrite (Open_valid_header fs path d Hfs Hv), exec_Open_lists, HD.
      reflexivity.
  - intros Hne nc.
    assert (E : (tag =? 0x0B) = false) by (apply Z.eqb_neq; exact Hne).
    assert (HV : exec (readVarList nc) s = (Err (InvalidVarListTag tag), s')).
    { rewrite (readVarList_tag nc s tag s' H), E0, E. reflexivity. }
    split; [exact HV|]. split.
    + apply trace_after_tag with (tag := tag); [exact H|].
      intros s1. rewrite E0, E. reflexivity.
    + intros nc0 s0 HD. split.
      * rewrite exec_Open_lists, HD, HV. reflexivity.
      * intros fs path d Hfs Hv Hs Hnc. subst s0 nc0.
        rewrite (Open_valid_header fs path d Hfs Hv), exec_Open_lists, HD, HV.
        reflexivity.
  - intros Hne.
    assert (E : (tag =? 0x0C) = false) by (apply Z.eqb_neq; exact Hne).
    assert (HA : exec readAttrList s = (Err (InvalidAttrListTag tag), s')).
    { rewrite (readAttrList_tag s tag s' H), E0, E. reflexivity. }
    split; [exact HA|]. split.
    + apply trace_after_tag with (tag := tag); [exact H|].
      intros s1. rewrite E0, E. reflexivity.
    + intros sv name ids Hr.
      assert (HV : exec readVar sv = (Err (InvalidAttrListTag tag), s')).
      { rewrite (readVar_at_attrs sv name ids s Hr).
        apply exec_try_Err. exact HA. }
      split; [exact HV|].
      intros nc0 s0 nc1 s1 s2 nelems s3 k n acc HD Ht Hn Hk Hacc.
      assert (HL : exec (Open_lists nc0) s0
                   = failed (InvalidAttrListTag tag) s').
      { rewrite exec_Open_lists, HD.
        rewrite (readVarList_tag nc1 s1 0x0B s2 Ht). cbn [Z.eqb Pos.eqb negb].
        rewrite exec_try, Hn. cbn [fst snd].
        rewrite exec_try, Hk, readVars_app, Hacc.
        cbn [readVars]. rewrite (exec_try_Err _ _ _ _ _ HV). reflexivity. }
      split; [exact HL|].
      intros fs path d Hfs Hv Hs Hnc. subst s0 nc0.
      rewrite (Open_valid_header fs path d Hfs Hv), HL. reflexivity.
Qed.

(** A file whose dimension-list tag word is [0x0D]. *)
Lemma wrong_tag_is_fatal_witness :
  Open (single_file "bad.nc" bad_dim_tag) "bad.nc"
  = (None, Some (InvalidDimListTag 13)).
Proof.
  pose proof (wrong_tag_is_fatal
                (os.mkState bad_dim_tag 8 false)
                (os.mkState bad_dim_tag 12 false) 13
                eq_refl ltac:(discriminate)) as [HD _].
  destruct (HD ltac:(discriminate) (initial_File "bad.nc" bad_dim_tag))
    as (_ & _ & _ & HO).
  apply (HO (single_file "bad.nc" bad_dim_tag) "bad.nc"%string bad_dim_tag);
    try reflexivity.
  repeat split; [cbn; lia | left; reflexivity].
Defined.

(** ** C6: the magic *)

Lemma trace_f_Read_bind {B : Type} len (k : _ -> io B) s :
  trace (bind (f_Read len) k) s =
  EvRead (os.offset s) (os.offset (snd (os.Read s len)))
  :: trace (k (fst (os.Read s len))) (snd (os.Read s len)).
Proof. unfold f_Read; simpl. destruct (os.Read s len); reflexivity. Qed.

(** C6.  For a file of at least 4 bytes: when its first 3 bytes are not
    ["CDF"], [Open] returns no file and the error "not a NetCDF file"; when
    they are, the outcome of [Open] is that of the steps after the magic
    check (the format check and, when the format byte is 1 or 2, the rest
    of the parse from offset 4, which starts by reading the record
    count). *)
Theorem magic_check :
  forall (fs : os.FileSystem) (path : string) (d : list byte),
  fs path = Some d -> (4 <= List.length d)%nat ->
  (firstn 3 d <> CDF -> Open fs path = (None, Some NotNetCDF))
  /\ (firstn 3 d = CDF ->
      Open fs path =
      (if negb (Byte.eqb (nth 3 d x00) ClassicFormat)
          && negb (Byte.eqb (nth 3 d x00) Format64BitOffset)
       then (None, Some (UnsupportedFormat (nth 3 d x00)))
       else fst (exec (Open_numrecs (os.mkFile path) (nth 3 d x00))
                      (os.mkState d 4 false)))
      /\ (nth 3 d x00 = ClassicFormat \/ nth 3 d x00 = Format64BitOffset ->
          exists b tr, Open_trace fs path = EvRead 0 4 :: EvRead 4 b :: tr)).
Proof.
  intros fs path d Hfs Hlen. split.
  - intros Hne. rewrite (Open_header fs path d Hfs Hlen).
    destruct (String.eqb (string_of_list_byte (firstn 3 d)) "CDF") eqn:E.
    + apply CDF_magic in E. contradiction.
    + reflexivity.
  - intros Hm. split.
    + rewrite (Open_header fs path d Hfs Hlen).
      destruct (CDF_magic (firstn 3 d)) as [_ ->]; [|exact Hm]. reflexivity.
    + intros Hfmt. unfold Open_trace, os.Open. rewrite Hfs.
      unfold Open_file. rewrite trace_f_Read_bind.
      rewrite Read_full;
        [| reflexivity | lia | unfold os.size; cbn [os.data os.offset]; lia ].
      cbn [fst snd os.data os.offset].
      destruct d as [|a [|b [|c [|fmt rest]]]]; cbn [List.length] in Hlen; try lia.
      change (os.slice (a :: b :: c :: fmt :: rest) 0 4) with [a; b; c; fmt].
      cbn [firstn nth] in *.
      destruct (CDF_magic [a; b; c]) as [_ ->]; [|exact Hm]. cbn [negb].
      assert (E : negb (Byte.eqb fmt ClassicFormat)
                  && negb (Byte.eqb fmt Format64BitOffset) = false).
      { destruct Hfmt as [-> | ->]; reflexivity. }
      rewrite E. unfold Open_numrecs. rewrite trace_f_Read_bind.
      cbn [os.offset]. eexists. eexists. reflexivity.
Qed.

(** A 4-byte file that is not NetCDF. *)
Lemma magic_check_witness :
  Open (single_file "x.nc" [x48; x44; x46; x01]) "x.nc"
  = (None, Some NotNetCDF).
Proof.
  apply (proj1 (magic_check (single_file "x.nc" [x48; x44; x46; x01])
                  "x.nc"%string
                  [x48; x44; x46; x01] eq_refl ltac:(cbn; lia))).
  discriminate.
Defined.

(** ** C7: the format byte *)

Lemma readDimList_Ok nc s nc1 s1 :
  exec (readDimList nc) s = (Ok nc1, s1) -> exists dims, nc1 = set_Dims nc dims.
Proof.
  unfold readDimList. rewrite exec_try.
  destruct (exec readU32 s) as [[tag|e] s']; cbn [fst snd]; [|discriminate].
  destruct (tag =? 0).
  { intros H; inversion H. eexists; reflexivity. }
  destruct (negb (tag =? 0x0A)); [discriminate|].
  rewrite exec_try.
  destruct (exec readU32 s') as [[nelems|e] s'']; cbn [fst snd]; [|discriminate].
  rewrite exec_try.
  destruct (exec (readDims (Z.to_nat nelems) []) s'') as [[dims|e] s3];
    cbn [fst snd]; [|discriminate].
  intros H; inversion H. eexists; reflexivity.
Qed.

Lemma readVarList_Ok nc s nc1 s1 :
  exec (readVarList nc) s = (Ok nc1, s1) -> exists vars, nc1 = set_Vars nc vars.
Proof.
  unfold readVarList. rewrite exec_try.
  destruct (exec readU32 s) as [[tag|e] s']; cbn [fst snd]; [|discriminate].
  destruct (tag =? 0).
  { intros H; inversion H. eexists; reflexivity. }
  destruct (negb (tag =? 0x0B)); [discriminate|].
  rewrite exec_try.
  destruct (exec readU32 s') as [[nelems|e] s'']; cbn [fst snd]; [|discriminate].
  rewrite exec_try.
  destruct (exec (readVars (Z.to_nat nelems) []) s'') as [[vars|e] s3];
    cbn [fst snd]; [|discriminate].
  intros H; inversion H. eexists; reflexivity.
Qed.

(** A successful [Open_lists] returns [nc] with its two lists assigned. *)
Lemma Open_lists_Some nc s nc2 r s2 :
  exec (Open_lists nc) s = ((Some nc2, r), s2) ->
  r = None
  /\ exists nc1 s1,
       exec (readDimList nc) s = (Ok nc1, s1)
       /\ exec (readVarList nc1) s1 = (Ok nc2, s2)
       /\ nc2 = mkFile (f nc) (Format nc) (NumRecs nc) (Dims nc1) (Vars nc2).
Proof.
  rewrite exec_Open_lists.
  destruct (exec (readDimList nc) s) as [[nc1|e] s1] eqn:HD; [|discriminate].
  destruct (exec (readVarList nc1) s1) as [[nc2'|e] s2'] eqn:HV; [|discriminate].
  intros H; inversion H; subst. split; [reflexivity|].
  exists nc1, s1. split; [reflexivity|]. split; [exact HV|].
  destruct (readDimList_Ok _ _ _ _ HD) as [dims ->].
  destruct (readVarList_Ok _ _ _ _ HV) as [vars ->]. reflexivity.
Qed.

(** A file shorter than 4 bytes never passes the magic and format checks. *)
Lemma Open_file_short h d :
  (List.length d < 4)%nat ->
  fst (fst (exec (Open_file h) (os.mkState d 0 false))) = None.
Proof.
  intros Hlen. unfold Open_file. rewrite exec_f_Read_bind.
  destruct d as [|a [|b [|c [|fmt rest]]]]; cbn [List.length] in Hlen; try lia.
  - reflexivity.
  - change (os.Read (os.mkState [a] 0 false) 4)
      with (([a; x00; x00; x00], 1, @None error), os.mkState [a] 1 false).
    cbn [fst snd firstn].
    destruct (String.eqb (string_of_list_byte [a; x00; x00]) "CDF") eqn:E;
      [apply CDF_magic in E; discriminate E | reflexivity].
  - change (os.Read (os.mkState [a; b] 0 false) 4)
      with (([a; b; x00; x00], 2, @None error), os.mkState [a; b] 2 false).
    cbn [fst snd firstn].
    destruct (String.eqb (string_of_list_byte [a; b; x00]) "CDF") eqn:E;
      [apply CDF_magic in E; discriminate E | reflexivity].
  - change (os.Read (os.mkState [a; b; c] 0 false) 4)
      with (([a; b; c; x00], 3, @None error), os.mkState [a; b; c] 3 false).
    cbn [fst snd firstn nth].
    destruct (String.eqb (string_of_list_byte [a; b; c]) "CDF");
      reflexivity.
Qed.

(** With fewer than 8 bytes the record count is cut short and the
    dimension list's tag word meets the end of the file. *)
Lemma Open_numrecs_short h format d :
  (4 <= List.length d < 8)%nat ->
  fst (fst (exec (Open_numrecs h format) (os.mkState d 4 false))) = None.
Proof.
  intros Hlen. unfold Open_numrecs. rewrite exec_f_Read_bind.
  unfold os.Read, os.size. cbn [os.closed os.data os.offset].
  change (4 <=? 0) with false. cbv iota.
  destruct (Z.min 4 (Z.of_nat (List.length d) - 4) <=? 0) eqn:E.
  - reflexivity.
  - cbn [fst snd]. rewrite exec_Open_lists.
    unfold readDimList. rewrite exec_try, readU32_eof.
    + reflexivity.
    + reflexivity.
    + unfold os.size; cbn [os.data os.offset]. lia.
Qed.

(** What a successful [Open] has done. *)
Lemma Open_Some fs path nc r :
  Open fs path = (Some nc, r) ->
  r = None
  /\ exists d nc1 s1 s2,
      fs path = Some d /\ valid_header d
      /\ exec (readDimList (initial_File path d)) (os.mkState d 8 false)
         = (Ok nc1, s1)
      /\ exec (readVarList nc1) s1 = (Ok nc, s2)
      /\ nc = mkFile (os.mkFile path) (nth 3 d x00)
                     (BigEndian_Uint32 (os.slice d 4 4)) (Dims nc1) (Vars nc).
Proof.
  intros H.
  destruct (fs path) as [d|] eqn:Hfs;
    [|unfold Open, os.Open in H; rewrite Hfs in H; discriminate].
  assert (Hv : valid_header d).
  { destruct (Nat.ltb (List.length d) 4) eqn:E4.
    { apply Nat.ltb_lt in E4. unfold Open, os.Open in H. rewrite Hfs in H.
      pose proof (Open_file_short (os.mkFile path) d E4) as Hn.
      rewrite H in Hn. discriminate. }
    apply Nat.ltb_ge in E4.
    rewrite (Open_header fs path d Hfs E4) in H.
    destruct (String.eqb (string_of_list_byte (firstn 3 d)) "CDF") eqn:Em;
      cbn [negb] in H; [|discriminate].
    apply CDF_magic in Em.
    destruct (Byte.eqb (nth 3 d x00) ClassicFormat) eqn:E1;
      destruct (Byte.eqb (nth 3 d x00) Format64BitOffset) eqn:E2;
      cbn [negb andb] in H; try discriminate.
    all: assert (Hf : nth 3 d x00 = ClassicFormat
                      \/ nth 3 d x00 = Format64BitOffset)
        by (first [ left; apply Byte.byte_dec_bl; exact E1
                  | right; apply Byte.byte_dec_bl; exact E2 ]).
    all: destruct (Nat.ltb (List.length d) 8) eqn:E8;
      [ apply Nat.ltb_lt in E8;
        pose proof (Open_numrecs_short (os.mkFile path) (nth 3 d x00) d
                      (conj E4 E8)) as Hn;
        rewrite H in Hn; discriminate
      | apply Nat.ltb_ge in E8; repeat split; assumption ]. }
  rewrite (Open_valid_header fs path d Hfs Hv) in H.
  destruct (exec (Open_lists (initial_File path d)) (os.mkState d 8 false))
    as [[o r'] s2] eqn:HL.
  cbn [fst] in H. inversion H; subst o r'.
  destruct (Open_lists_Some _ _ _ _ _ HL) as (-> & nc1 & s1 & HD & HV & Hnc).
  split; [reflexivity|].
  exists d, nc1, s1, s2. repeat split; try assumption; apply Hv.
Qed.



(** ** C9: all or nothing *)











(** ** C1: the order of the lists *)

Lemma trace_f_Close_ret {B : Type} (b : B) s :
  trace (_ <- f_Close ;; Ret b) s = [EvClose].
Proof. unfold f_Close; simpl. destruct (os.Close s); reflexivity. Qed.

Lemma trace_Open_lists nc s :
  trace (Open_lists nc) s =
  trace (readDimList nc) s ++
  match exec (readDimList nc) s with
  | (Err _, _) => [EvClose]
  | (Ok nc1, s1) =>
      trace (readVarList nc1) s1 ++
      match exec (readVarList nc1) s1 with
      | (Err _, _) => [EvClose]
      | (Ok _, _) => []
      end
  end.
Proof.
  unfold Open_lists. rewrite trace_bind. f_equal.
  destruct (exec (readDimList nc) s) as [[nc1|e] s1]; cbn [fst snd].
  - rewrite trace_bind. f_equal.
    destruct (exec (readVarList nc1) s1) as [[nc2|e] s2]; cbn [fst snd].
    + reflexivity.
    + apply trace_f_Close_ret.
  - apply trace_f_Close_ret.
Qed.

Lemma Open_trace_valid_header fs path d :
  fs path = Some d -> valid_header d ->
  Open_trace fs path =
  EvRead 0 4 :: EvRead 4 8
  :: trace (Open_lists (initial_File path d)) (os.mkState d 8 false).
Proof.
  intros Hfs (Hlen & Hmagic & Hfmt).
  unfold Open_trace, os.Open. rewrite Hfs.
  unfold Open_file. rewrite trace_f_Read_bind.
  rewrite Read_full;
    [| reflexivity | lia | unfold os.size; cbn [os.data os.offset]; lia ].
  cbn [fst snd os.data os.offset].
  destruct d as [|a [|b [|c [|fmt rest]]]]; cbn [List.length] in Hlen; try lia.
  change (os.slice (a :: b :: c :: fmt :: rest) 0 4) with [a; b; c; fmt].
  cbn [firstn nth] in *.
  destruct (CDF_magic [a; b; c]) as [_ ->]; [|exact Hmagic]. cbn [negb].
  assert (E : negb (Byte.eqb fmt ClassicFormat)
              && negb (Byte.eqb fmt Format64BitOffset) = false).
  { destruct Hfmt as [-> | ->]; reflexivity. }
  rewrite E. unfold Open_numrecs. rewrite trace_f_Read_bind.
  rewrite Read_full;
    [| reflexivity | lia
     | unfold os.size; cbn [os.data os.offset List.length] in *; lia ].
  reflexivity.
Qed.

(** C1, as the code has it.  After the magic, the format byte and the
    record count (8 bytes), [Open] decodes the dimension list and then the
    variable list, in that order, and nothing between them: the variable
    list is decoded from the state the dimension list left, and the reads
    of [Open] are the two header reads, those of [readDimList] and those of
    [readVarList].  No global attribute list is consumed. *)
Theorem Open_reads_dims_then_vars :
  forall (fs : os.FileSystem) (path : string) (d : list byte),
  fs path = Some d -> valid_header d ->
  Open fs path =
  match exec (readDimList (initial_File path d)) (os.mkState d 8 false) with
  | (Err e, _) => (None, Some e)
  | (Ok nc1, s1) =>
      match exec (readVarList nc1) s1 with
      | (Err e, _) => (None, Some e)
      | (Ok nc2, _) => (Some nc2, None)
      end
  end
  /\ Open_trace fs path =
     EvRead 0 4 :: EvRead 4 8 ::
     trace (readDimList (initial_File path d)) (os.mkState d 8 false) ++
     match exec (readDimList (initial_File path d)) (os.mkState d 8 false) with
     | (Err _, _) => [EvClose]
     | (Ok nc1, s1) =>
         trace (readVarList nc1) s1 ++
         match exec (readVarList nc1) s1 with
         | (Err _, _) => [EvClose]
         | (Ok _, _) => []
         end
     end.
Proof.
  intros fs path d Hfs Hv. split.
  - rewrite (Open_valid_header fs path d Hfs Hv), exec_Open_lists.
    destruct (exec (readDimList (initial_File path d)) (os.mkState d 8 false))
      as [[nc1|e] s1]; [|reflexivity].
    destruct (exec (readVarList nc1) s1) as [[nc2|e] s2]; reflexivity.
  - rewrite (Open_trace_valid_header fs path d Hfs Hv), trace_Open_lists.
    reflexivity.
Qed.

(** [header_lat] followed directly by the variable list. *)
Lemma Open_reads_dims_then_vars_witness :
  Open (single_file "t.nc" (header_lat ++ var_list_temp)) "t.nc"
  = (Some (mkFile (os.mkFile "t.nc") ClassicFormat 0 [lat_dim] [temp_var]),
     None).
Proof.
  assert (Hv : valid_header (header_lat ++ var_list_temp))
    by (repeat split; [cbn; lia | left; reflexivity]).
  rewrite (proj1 (Open_reads_dims_then_vars
                    (single_file "t.nc" (header_lat ++ var_list_temp))
                    "t.nc"%string (header_lat ++ var_list_temp) eq_refl Hv)).
  vm_compute. reflexivity.
Defined.

(** C1 as stated fails on a file laid out per the grammar with a global
    attribute list between the dimension list and the variable list.  In the
    order the specification gives, the file decodes to one dimension and the
    variable ["temp"].  [Open] reads the tag word of the global attribute
    list (12) as the tag of the variable list and fails; nothing after that
    word is read. *)
Lemma Open_does_not_consume_global_attributes :
  fst (exec (Spec.headerLists (initial_File "g.nc" file_with_gatt))
            (os.mkState file_with_gatt 8 false))
  = (Some (mkFile (os.mkFile "g.nc") ClassicFormat 0 [lat_dim] [temp_var]),
     None)
  /\ Open (single_file "g.nc" file_with_gatt) "g.nc"
     = (None, Some (InvalidVarListTag 12))
  /\ Open_trace (single_file "g.nc" file_with_gatt) "g.nc"
     = [EvRead 0 4; EvRead 4 8; EvRead 8 12; EvRead 12 16; EvRead 16 20;
        EvRead 20 23; EvSeek 23 24; EvRead 24 28; EvRead 28 32; EvClose].
Proof. split; [|split]; vm_compute; reflexivity. Qed.

(** ** C2: the scenario with one variable *)

(** C2, as the code has it.  For the stream of the scenario without a word
    for the global attribute list (a valid header, the dimension list
    [[("lat", 180)]], then directly the variable list with tag [0x0B], count
    1, name ["temp"], one dimension id 0, an absent nested attribute list,
    type 5, vsize 720, offset 1024), [Open] succeeds and the variables are
    [[temp_var]]. *)
Theorem scenario_temp_directly_after_dims :
  Open (single_file "s.nc" file_no_gatt) "s.nc"
  = (Some (mkFile (os.mkFile "s.nc") ClassicFormat 0 [lat_dim] [temp_var]),
     None).
Proof. vm_compute. reflexivity. Qed.

(** C2 as stated fails: with the zero word of an absent global attribute
    list between the dimension list and the variable list, [Open] takes
    that word for the tag of the variable list and succeeds with no
    variable at all. *)
Lemma scenario_with_absent_gatt_has_no_variable :
  Open (single_file "s.nc" file_absent_gatt) "s.nc"
  = (Some (mkFile (os.mkFile "s.nc") ClassicFormat 0 [lat_dim] []), None)
  /\ ~ (exists nc,
          Open (single_file "s.nc" file_absent_gatt) "s.nc" = (Some nc, None)
          /\ Vars nc = [temp_var]).
Proof.
  split; [vm_compute; reflexivity|].
  intros (nc & H & HV). vm_compute in H. inversion H; subst nc.
  discriminate HV.
Qed.

(** ** C8: the offset of a variable is one 32-bit word *)

Lemma readDimList_Format b nc s :
  exec (readDimList (with_Format b nc)) s =
  (match fst (exec (readDimList nc) s) with
   | Ok nc1 => Ok (with_Format b nc1)
   | Err e => Err e
   end, snd (exec (readDimList nc) s))
  /\ trace (readDimList (with_Format b nc)) s = trace (readDimList nc) s.
Proof.
  unfold readDimList. rewrite !exec_try, !trace_try.
  destruct (exec readU32 s) as [[tag|e] s1]; cbn [fst snd]; [|split; reflexivity].
  destruct (tag =? 0); [split; reflexivity|].
  destruct (negb (tag =? 0x0A)); [split; reflexivity|].
  rewrite !exec_try, !trace_try.
  destruct (exec readU32 s1) as [[nelems|e] s2]; cbn [fst snd];
    [|split; reflexivity].
  rewrite !exec_try, !trace_try.
  destruct (exec (readDims (Z.to_nat nelems) []) s2) as [[dims|e] s3];
    cbn [fst snd]; split; reflexivity.
Qed.

Lemma readVarList_Format b nc s :
  exec (readVarList (with_Format b nc)) s =
  (match fst (exec (readVarList nc) s) with
   | Ok nc1 => Ok (with_Format b nc1)
   | Err e => Err e
   end, snd (exec (readVarList nc) s))
  /\ trace (readVarList (with_Format b nc)) s = trace (readVarList nc) s.
Proof.
  unfold readVarList. rewrite !exec_try, !trace_try.
  destruct (exec readU32 s) as [[tag|e] s1]; cbn [fst snd]; [|split; reflexivity].
  destruct (tag =? 0); [split; reflexivity|].
  destruct (negb (tag =? 0x0B)); [split; reflexivity|].
  rewrite !exec_try, !trace_try.
  destruct (exec readU32 s1) as [[nelems|e] s2]; cbn [fst snd];
    [|split; reflexivity].
  rewrite !exec_try, !trace_try.
  destruct (exec (readVars (Z.to_nat nelems) []) s2) as [[vars|e] s3];
    cbn [fst snd]; split; reflexivity.
Qed.

Lemma Open_lists_Format b nc s :
  exec (Open_lists (with_Format b nc)) s =
  ((option_map (with_Format b) (fst (fst (exec (Open_lists nc) s))),
    snd (fst (exec (Open_lists nc) s))),
   snd (exec (Open_lists nc) s))
  /\ trace (Open_lists (with_Format b nc)) s = trace (Open_lists nc) s.
Proof.
  rewrite !exec_Open_lists, !trace_Open_lists.
  destruct (readDimList_Format b nc s) as [-> ->].
  destruct (exec (readDimList nc) s) as [[nc1|e] s1]; cbn [fst snd];
    [|split; reflexivity].
  destruct (readVarList_Format b nc1 s1) as [-> ->].
  destruct (exec (readVarList nc1) s1) as [[nc2|e] s2]; cbn [fst snd];
    split; reflexivity.
Qed.

Lemma Open_numrecs_Format h b b' s :
  exec (Open_numrecs h b') s =
  ((option_map (with_Format b') (fst (fst (exec (Open_numrecs h b) s))),
    snd (fst (exec (Open_numrecs h b) s))),
   snd (exec (Open_numrecs h b) s))
  /\ trace (Open_numrecs h b') s = trace (Open_numrecs h b) s.
Proof.
  unfold Open_numrecs. rewrite !exec_f_Read_bind, !trace_f_Read_bind.
  destruct (os.Read s 4) as [[[buf n] [e|]] s1]; cbn [fst snd].
  - rewrite !exec_f_Close_bind, !trace_f_Close_ret. split; reflexivity.
  - change (mkFile h b' (BigEndian_Uint32 buf) [] [])
      with (with_Format b' (mkFile h b (BigEndian_Uint32 buf) [] [])).
    destruct (Open_lists_Format b' (mkFile h b (BigEndian_Uint32 buf) [] []) s1)
      as [-> ->].
    split; reflexivity.
Qed.

Lemma byte_at_tail4 a b c x y rest i :
  4 <= i ->
  byte_at (a :: b :: c :: x :: rest) i = byte_at (a :: b :: c :: y :: rest) i.
Proof.
  intros Hi. unfold byte_at. destruct (i <? 0); [reflexivity|].
  destruct (Z.to_nat i) as [|[|[|[|n]]]] eqn:E; try lia. reflexivity.
Qed.

(** C8.  The variable decoder, once it has decoded the name, the dimension
    ids, the attribute list, the type and the vsize of a variable, makes
    one [readU32] and returns its result as the offset of the variable: on
    an open file with 4 bytes left that is the big-endian value of those 4
    bytes, and the variable ends there.  The format byte plays no part:
    two files that differ only in the format byte (1 or 2) give the same
    error or the same record count, dimensions and variables, through the
    same reads. *)
Theorem offset_is_one_u32 :
  (forall s0 name ids s attrs s1 dtype s2 vsize s3,
      var_reaches_attrs s0 name ids s ->
      exec readAttrList s = (Ok attrs, s1) ->
      exec readU32 s1 = (Ok dtype, s2) ->
      exec readU32 s2 = (Ok vsize, s3) ->
      exec readVar s0 =
      match exec readU32 s3 with
      | (Ok offset, s4) =>
          (Ok (mkVariable name ids dtype vsize offset attrs), s4)
      | (Err e, s4) => (Err e, s4)
      end
      /\ (os.closed s3 = false -> os.offset s3 + 4 <= os.size s3 ->
          exec readVar s0 =
          (Ok (mkVariable name ids dtype vsize
                 (BigEndian_Uint32 (os.slice (os.data s3) (os.offset s3) 4))
                 attrs),
           advance s3 4)))
  /\ (forall fs1 fs2 path rest,
         fs1 path = Some (x43 :: x44 :: x46 :: ClassicFormat :: rest) ->
         fs2 path = Some (x43 :: x44 :: x46 :: Format64BitOffset :: rest) ->
         snd (Open fs1 path) = snd (Open fs2 path)
         /\ option_map (fun nc => (NumRecs nc, Dims nc, Vars nc))
                       (fst (Open fs1 path))
            = option_map (fun nc => (NumRecs nc, Dims nc, Vars nc))
                         (fst (Open fs2 path))
         /\ Open_trace fs1 path = Open_trace fs2 path).
Proof.
  split.
  - intros s0 name ids s attrs s1 dtype s2 vsize s3 Hr HA HT HS.
    assert (E : exec readVar s0 =
                match exec readU32 s3 with
                | (Ok offset, s4) =>
                    (Ok (mkVariable name ids dtype vsize offset attrs), s4)
                | (Err e, s4) => (Err e, s4)
                end).
    { rewrite (readVar_at_attrs s0 name ids s Hr).
      rewrite (exec_try_Ok _ _ _ _ _ HA), (exec_try_Ok _ _ _ _ _ HT),
              (exec_try_Ok _ _ _ _ _ HS), exec_try.
      destruct (exec readU32 s3) as [[off|e] s4]; reflexivity. }
    split; [exact E|].
    intros Hc Hs. rewrite E, (readU32_full s3 Hc Hs). reflexivity.
  - intros fs1 fs2 path rest H1 H2.
    set (d1 := x43 :: x44 :: x46 :: ClassicFormat :: rest) in *.
    set (d2 := x43 :: x44 :: x46 :: Format64BitOffset :: rest) in *.
    set (h := os.mkFile path).
    assert (L1 : (4 <= List.length d1)%nat) by (cbn [List.length d1]; lia).
    assert (L2 : (4 <= List.length d2)%nat) by (cbn [List.length d2]; lia).
    (* the same program on the two files *)
    destruct (exec_agree (Open_numrecs h ClassicFormat)
                (os.mkState d1 4 false) (os.mkState d2 4 false))
      as (A1 & A2 & A3).
    { repeat split. }
    { cbn [os.offset]. lia. }
    { intros i Hi. cbn [os.data]. apply byte_at_tail4.
      exact (chain_readb_lower _ _ i
               (forward_chain _ (forward_Open_numrecs h ClassicFormat)
                              (os.mkState d1 4 false)) Hi). }
    (* the two programs on the second file *)
    destruct (Open_numrecs_Format h ClassicFormat Format64BitOffset
                (os.mkState d2 4 false)) as [F1 F2].
    assert (O1 : Open fs1 path
                 = fst (exec (Open_numrecs h ClassicFormat)
                             (os.mkState d1 4 false))).
    { rewrite (Open_header fs1 path d1 H1 L1). reflexivity. }
    assert (O2 : Open fs2 path
                 = fst (exec (Open_numrecs h Format64BitOffset)
                             (os.mkState d2 4 false))).
    { rewrite (Open_header fs2 path d2 H2 L2). reflexivity. }
    rewrite O1, O2, F1, A1. cbn [fst snd].
    split; [reflexivity|]. split.
    + destruct (fst (fst (exec (Open_numrecs h ClassicFormat)
                               (os.mkState d2 4 false)))); reflexivity.
    + unfold Open_trace, os.Open. rewrite H1, H2. fold h.
      unfold Open_file. rewrite !trace_f_Read_bind.
      rewrite !Read_full;
        try reflexivity; try lia;
        try (unfold os.size; cbn [os.data os.offset]; lia).
      cbn [fst snd os.data os.offset].
      change (os.slice d1 0 4) with [x43; x44; x46; ClassicFormat].
      change (os.slice d2 0 4) with [x43; x44; x46; Format64BitOffset].
      cbn [firstn nth].
      change (negb (String.eqb (string_of_list_byte [x43; x44; x46]) "CDF"))
        with false.
      cbv iota.
      change (negb (Byte.eqb ClassicFormat ClassicFormat)
              && negb (Byte.eqb ClassicFormat Format64BitOffset)) with false.
      change (negb (Byte.eqb Format64BitOffset ClassicFormat)
              && negb (Byte.eqb Format64BitOffset Format64BitOffset)) with false.
      cbv iota. change (0 + 4) with 4. rewrite F2, A3. reflexivity.
Qed.

(** The two formats on the same bytes after the format byte. *)
Lemma offset_is_one_u32_witness :
  snd (Open (single_file "c.nc"
               (x43 :: x44 :: x46 :: ClassicFormat :: body_no_gatt)) "c.nc")
  = snd (Open (single_file "c.nc"
                 (x43 :: x44 :: x46 :: Format64BitOffset :: body_no_gatt))
              "c.nc")
  /\ option_map (fun nc => (NumRecs nc, Dims nc, Vars nc))
        (fst (Open (single_file "c.nc"
                      (x43 :: x44 :: x46 :: ClassicFormat :: body_no_gatt))
                   "c.nc"))
     = option_map (fun nc => (NumRecs nc, Dims nc, Vars nc))
         (fst (Open (single_file "c.nc"
                       (x43 :: x44 :: x46 :: Format64BitOffset :: body_no_gatt))
                    "c.nc"))
  /\ Open_trace (single_file "c.nc"
                   (x43 :: x44 :: x46 :: ClassicFormat :: body_no_gatt)) "c.nc"
     = Open_trace (single_file "c.nc"
                     (x43 :: x44 :: x46 :: Format64BitOffset :: body_no_gatt))
                  "c.nc".
Proof.
  exact (proj2 offset_is_one_u32
           (single_file "c.nc"
              (x43 :: x44 :: x46 :: ClassicFormat :: body_no_gatt))
           (single_file "c.nc"
              (x43 :: x44 :: x46 :: Format64BitOffset :: body_no_gatt))
           "c.nc"%string body_no_gatt eq_refl eq_refl).
Defined.

(** In a 64-bit-offset file laid out with an 8-byte offset, the variable's
    offset is the first 4 of those bytes (0, not 1024); the other 4 are left
    in the file. *)
Example cdf2_offset_read_as_4_bytes :
  Open (single_file "w.nc" cdf2_wide_offset) "w.nc"
  = (Some (mkFile (os.mkFile "w.nc") Format64BitOffset 0 []
             [mkVariable "temp" [] 5 720 0 []]), None)
  /\ Open_trace (single_file "w.nc" cdf2_wide_offset) "w.nc"
     = [EvRead 0 4; EvRead 4 8; EvRead 8 12; EvRead 12 16; EvRead 16 20;
        EvRead 20 24; EvRead 24 28; EvRead 28 32; EvRead 32 36; EvRead 36 40;
        EvRead 40 44; EvRead 44 48]
  /\ List.length cdf2_wide_offset = 52%nat.
Proof. split; [|split]; vm_compute; reflexivity. Qed.

(** ** C10: padding bytes are never looked at *)







(** * More of the package *)

(** ** Runs in general *)

Lemma exec_data {A : Type} (m : io A) :
  forall s, os.data (snd (exec m s)) = os.data s.
Proof.
  induction m as [a|len k IH|off wh k IH|k IH]; intros s; simpl.
  - reflexivity.
  - pose proof (Read_data s len). destruct (os.Read s len) as [r s1].
    rewrite IH. assumption.
  - pose proof (Seek_data s off wh). destruct (os.Seek s off wh) as [r s1].
    rewrite IH. assumption.
  - pose proof (Close_data s). destruct (os.Close s) as [r s1].
    rewrite IH. assumption.
Qed.

Lemma forward_offset_le {A : Type} (m : io A) :
  forward m -> forall s, os.offset s <= os.offset (snd (exec m s)).
Proof.
  induction 1 as [a|len k Hk IH|off k Hoff Hk IH|k Hk IH]; intros s; simpl.
  - lia.
  - pose proof (Read_offset_le s len).
    destruct (os.Read s len) as [r s1]. specialize (IH r s1). simpl in *. lia.
  - pose proof (Seek_cur_offset_le s off Hoff).
    destruct (os.Seek s off 1) as [r s1]. specialize (IH r s1). simpl in *. lia.
  - pose proof (Close_offset s).
    destruct (os.Close s) as [r s1]. specialize (IH r s1). simpl in *. lia.
Qed.

Lemma forward_reads_below_end {A : Type} (m : io A) :
  forward m -> forall s i,
    readb (trace m s) i = true -> i < os.offset (snd (exec m s)).
Proof.
  induction 1 as [a|len k Hk IH|off k Hoff Hk IH|k Hk IH]; intros s i; simpl.
  - discriminate.
  - pose proof (forward_offset_le _ (Hk (fst (os.Read s len)))
                                  (snd (os.Read s len))) as Hle.
    destruct (os.Read s len) as [r s1]. simpl in *.
    intros H. apply orb_true_iff in H as [H|H].
    + apply in_range_spec in H. lia.
    + apply IH; assumption.
  - destruct (os.Seek s off 1) as [r s1]. simpl. apply IH.
  - destruct (os.Close s) as [r s1]. simpl. apply IH.
Qed.

Lemma Read_closed s len : os.closed (snd (os.Read s len)) = os.closed s.
Proof.
  unfold os.Read. destruct (os.closed s) eqn:E; [exact E|].
  destruct (len <=? 0); [exact E|].
  destruct (Z.min len (os.size s - os.offset s) <=? 0); [exact E|reflexivity].
Qed.

Lemma Read_error s len e :
  os.closed s = false -> snd (fst (os.Read s len)) = Some e -> e = EOF.
Proof.
  intros Hc. unfold os.Read. rewrite Hc.
  destruct (len <=? 0); [discriminate|].
  destruct (Z.min len (os.size s - os.offset s) <=? 0); [|discriminate].
  intros H; inversion H; reflexivity.
Qed.

Lemma opened_Read s len : opened s -> opened (snd (os.Read s len)).
Proof.
  intros [Hc Ho]. split.
  - rewrite Read_closed. exact Hc.
  - apply Read_offset_nonneg; exact Ho.
Qed.

Lemma opened_Seek_padding s n :
  opened s ->
  os.Seek s (padding n) 1
  = ((os.offset s + padding n, None), advance s (padding n)).
Proof.
  intros [Hc Ho]. pose proof (padding_range n).
  rewrite Seek_cur by (assumption || lia). reflexivity.
Qed.

Lemma opened_advance s n : opened s -> 0 <= n -> opened (advance s n).
Proof. intros [Hc Ho] Hn. split; [reflexivity|]. unfold advance; simpl; lia. Qed.

(** ** Which errors a decoder can return *)

Lemma decodes_weaken {A : Type} (P Q : error -> Prop) (m : io (result A)) :
  (forall e, P e -> Q e) -> decodes P m -> decodes Q m.
Proof.
  intros HPQ Hm s Hs. destruct (Hm s Hs) as [H1 H2]. split; [exact H1|].
  intros e He. apply HPQ, H2, He.
Qed.

Lemma decodes_try {A B : Type} (P : error -> Prop)
      (m : io (result A)) (k : A -> io (result B)) :
  decodes P m -> (forall a, decodes P (k a)) -> decodes P (try m k).
Proof.
  intros Hm Hk s Hs. rewrite exec_try.
  destruct (Hm s Hs) as [H1 H2].
  destruct (exec m s) as [[a|e] s1]; cbn [fst snd] in *.
  - apply Hk; exact H1.
  - split; [exact H1|]. intros e' He'. apply H2. inversion He'; reflexivity.
Qed.

Lemma decodes_Ret_Ok {A : Type} (P : error -> Prop) (a : A) :
  decodes P (Ret (Ok a)).
Proof. intros s Hs. split; [exact Hs|]. intros e He. discriminate He. Qed.

Lemma decodes_Ret_Err {A : Type} (P : error -> Prop) e :
  P e -> decodes P (Ret (@Err A e)).
Proof.
  intros HP s Hs. split; [exact Hs|]. intros e' He'.
  inversion He'; subst; exact HP.
Qed.

Lemma decodes_readU32 : decodes eof_only readU32.
Proof.
  intros s Hs. rewrite exec_readU32.
  pose proof (opened_Read s 4 Hs) as Ho.
  pose proof (Read_error s 4) as He.
  destruct (os.Read s 4) as [[[buf n] [e|]] s1]; cbn [fst snd] in *.
  - split; [exact Ho|]. intros e' H; inversion H; subst.
    apply He; [apply Hs|reflexivity].
  - split; [exact Ho|]. discriminate.
Qed.

Lemma decodes_readString : decodes eof_only readString.
Proof.
  unfold readString. apply decodes_try; [exact decodes_readU32|].
  intros n s Hs. rewrite exec_f_Read_bind.
  pose proof (opened_Read s n Hs) as Ho.
  pose proof (Read_error s n) as He.
  destruct (os.Read s n) as [[[buf k] [e|]] s1]; cbn [fst snd] in *.
  - split; [exact Ho|]. intros e' H; inversion H; subst.
    apply He; [apply Hs|reflexivity].
  - destruct (0 <? padding n).
    + rewrite exec_f_Seek_bind, (opened_Seek_padding s1 n Ho). cbn [fst snd exec].
      split; [apply opened_advance; [exact Ho|apply padding_nonneg]|discriminate].
    + cbn [exec fst snd]. split; [exact Ho|discriminate].
Qed.

Lemma decodes_readDim : decodes eof_only readDim.
Proof.
  unfold readDim.
  apply decodes_try; [exact decodes_readString|intros name].
  apply decodes_try; [exact decodes_readU32|intros length].
  apply decodes_Ret_Ok.
Qed.

Lemma decodes_readDims n : forall dims, decodes eof_only (readDims n dims).
Proof.
  induction n as [|n IH]; intros dims; cbn [readDims].
  - apply decodes_Ret_Ok.
  - apply decodes_try; [exact decodes_readDim|intros d; apply IH].
Qed.

Lemma decodes_after_tag {A B : Type} (P : error -> Prop) (mk : Z -> error)
      (expected : Z) (empty : B) (k : io (result B)) :
  (forall e, eof_only e -> P e) ->
  (forall tag, tag <> 0 -> tag <> expected -> P (mk tag)) ->
  decodes P k ->
  decodes P (tag <-? readU32 ;;
             if tag =? 0 then Ret (Ok empty)
             else if negb (tag =? expected) then Ret (Err (mk tag))
             else k).
Proof.
  intros Heof Hmk Hk.
  apply decodes_try; [exact (decodes_weaken _ _ _ Heof decodes_readU32)|].
  intros tag. destruct (tag =? 0) eqn:E0; [apply decodes_Ret_Ok|].
  destruct (tag =? expected) eqn:E1; cbn [negb]; [exact Hk|].
  apply decodes_Ret_Err. apply Hmk; zlia.
Qed.

Lemma eof_dim_list_error e : eof_only e -> dim_list_error e.
Proof. intros ->; left; reflexivity. Qed.

Lemma eof_attr_list_error e : eof_only e -> attr_list_error e.
Proof. intros ->; left; reflexivity. Qed.

Lemma eof_var_list_error e : eof_only e -> var_list_error e.
Proof. intros ->; left; left; reflexivity. Qed.

Lemma decodes_readDimList nc : decodes dim_list_error (readDimList nc).
Proof.
  unfold readDimList.
  apply (decodes_after_tag (A := Z) dim_list_error InvalidDimListTag 0x0A).
  - exact eof_dim_list_error.
  - intros tag H0 H1. right. exists tag. auto.
  - apply decodes_try;
      [exact (decodes_weaken _ _ _ eof_dim_list_error decodes_readU32)|].
    intros nelems. apply decodes_try.
    + exact (decodes_weaken _ _ _ eof_dim_list_error (decodes_readDims _ _)).
    + intros dims. apply decodes_Ret_Ok.
Qed.

Lemma decodes_readAttr : decodes eof_only readAttr.
Proof.
  unfold readAttr.
  apply decodes_try; [exact decodes_readString|intros name].
  apply decodes_try; [exact decodes_readU32|intros atype].
  apply decodes_try; [exact decodes_readU32|intros nvals].
  intros s Hs. rewrite exec_f_Read_bind.
  pose proof (opened_Read s nvals Hs) as Ho.
  pose proof (Read_error s nvals) as He.
  destruct (os.Read s nvals) as [[[buf k] [e|]] s1]; cbn [fst snd] in *.
  - split; [exact Ho|]. intros e' H; inversion H; subst.
    apply He; [apply Hs|reflexivity].
  - destruct (0 <? padding nvals).
    + rewrite exec_f_Seek_bind, (opened_Seek_padding s1 nvals Ho).
      cbn [fst snd exec].
      split; [apply opened_advance; [exact Ho|apply padding_nonneg]|discriminate].
    + cbn [exec fst snd]. split; [exact Ho|discriminate].
Qed.

Lemma decodes_readAttrs n : forall attrs, decodes eof_only (readAttrs n attrs).
Proof.
  induction n as [|n IH]; intros attrs; cbn [readAttrs].
  - apply decodes_Ret_Ok.
  - apply decodes_try; [exact decodes_readAttr|intros a; apply IH].
Qed.

Lemma decodes_readAttrList : decodes attr_list_error readAttrList.
Proof.
  unfold readAttrList.
  apply (decodes_after_tag (A := Z) attr_list_error InvalidAttrListTag 0x0C).
  - exact eof_attr_list_error.
  - intros tag H0 H1. right. exists tag. auto.
  - apply decodes_try;
      [exact (decodes_weaken _ _ _ eof_attr_list_error decodes_readU32)|].
    intros nelems.
    exact (decodes_weaken _ _ _ eof_attr_list_error (decodes_readAttrs _ _)).
Qed.

Lemma decodes_readDimIDs n : forall j ids, decodes eof_only (readDimIDs n j ids).
Proof.
  induction n as [|n IH]; intros j ids; cbn [readDimIDs].
  - apply decodes_Ret_Ok.
  - apply decodes_try; [exact decodes_readU32|intros v; apply IH].
Qed.

Lemma decodes_readVar : decodes attr_list_error readVar.
Proof.
  unfold readVar.
  pose proof (decodes_weaken _ _ _ eof_attr_list_error decodes_readU32) as HU.
  apply decodes_try;
    [exact (decodes_weaken _ _ _ eof_attr_list_error decodes_readString)|].
  intros name. apply decodes_try; [exact HU|intros nDims].
  apply decodes_try;
    [exact (decodes_weaken _ _ _ eof_attr_list_error (decodes_readDimIDs _ _ _))|].
  intros ids. apply decodes_try; [exact decodes_readAttrList|intros attrs].
  apply decodes_try; [exact HU|intros dtype].
  apply decodes_try; [exact HU|intros vsize].
  apply decodes_try; [exact HU|intros offset].
  apply decodes_Ret_Ok.
Qed.

Lemma decodes_readVars n : forall vars, decodes attr_list_error (readVars n vars).
Proof.
  induction n as [|n IH]; intros vars; cbn [readVars].
  - apply decodes_Ret_Ok.
  - apply decodes_try; [exact decodes_readVar|intros v; apply IH].
Qed.

Lemma decodes_readVarList nc : decodes var_list_error (readVarList nc).
Proof.
  unfold readVarList.
  apply (decodes_after_tag (A := Z) var_list_error InvalidVarListTag 0x0B).
  - exact eof_var_list_error.
  - intros tag H0 H1. right. exists tag. auto.
  - apply decodes_try;
      [exact (decodes_weaken _ _ _ eof_var_list_error decodes_readU32)|].
    intros nelems. apply decodes_try.
    + apply (decodes_weaken attr_list_error); [|apply decodes_readVars].
      intros e He; left; exact He.
    + intros vars. apply decodes_Ret_Ok.
Qed.

(** ** How [Open] leaves the file *)

Lemma Close_closed s : os.closed (snd (os.Close s)) = true.
Proof. unfold os.Close. destruct (os.closed s) eqn:E; [exact E|reflexivity]. Qed.

Lemma Open_lists_outcome nc s :
  opened s ->
  match fst (exec (Open_lists nc) s) with
  | (Some _, None) => os.closed (snd (exec (Open_lists nc) s)) = false
  | (None, Some e) =>
      os.closed (snd (exec (Open_lists nc) s)) = true
      /\ (dim_list_error e \/ var_list_error e)
  | _ => False
  end.
Proof.
  intros Hs. rewrite exec_Open_lists.
  destruct (decodes_readDimList nc s Hs) as [H1 E1].
  destruct (exec (readDimList nc) s) as [[nc1|e] s1]; cbn [fst snd] in *.
  - destruct (decodes_readVarList nc1 s1 H1) as [H2 E2].
    destruct (exec (readVarList nc1) s1) as [[nc2|e] s2]; cbn [fst snd] in *.
    + apply H2.
    + unfold failed; cbn [fst snd]. split; [apply Close_closed|].
      right. apply E2. reflexivity.
  - unfold failed; cbn [fst snd]. split; [apply Close_closed|].
    left. apply E1. reflexivity.
Qed.

Lemma Open_file_outcome h s :
  opened s ->
  match fst (exec (Open_file h) s) with
  | (Some _, None) => os.closed (snd (exec (Open_file h) s)) = false
  | (None, Some e) =>
      os.closed (snd (exec (Open_file h) s)) = true
      /\ (e = NotNetCDF
          \/ (exists b, e = UnsupportedFormat b /\ b <> ClassicFormat
                        /\ b <> Format64BitOffset)
          \/ dim_list_error e \/ var_list_error e)
  | _ => False
  end.
Proof.
  intros Hs. unfold Open_file. rewrite exec_f_Read_bind.
  pose proof (opened_Read s 4 Hs) as Ho.
  pose proof (Read_error s 4 ) as He.
  destruct (os.Read s 4) as [[[hdr n] [e|]] s1]; cbn [fst snd] in *.
  { rewrite exec_f_Close_bind. cbn [exec fst snd].
    split; [apply Close_closed|].
    right; right; left; left. apply He; [apply Hs|reflexivity]. }
  destruct (negb (String.eqb (string_of_list_byte (firstn 3 hdr)) "CDF")).
  { rewrite exec_f_Close_bind. cbn [exec fst snd].
    split; [apply Close_closed|]. left; reflexivity. }
  destruct (Byte.eqb (nth 3 hdr x00) ClassicFormat) eqn:E1;
    destruct (Byte.eqb (nth 3 hdr x00) Format64BitOffset) eqn:E2;
    cbn [negb andb].
  4: { rewrite exec_f_Close_bind. cbn [exec fst snd].
       split; [apply Close_closed|]. right; left.
       exists (nth 3 hdr x00). repeat split.
       - apply Byte.eqb_false; exact E1.
       - apply Byte.eqb_false; exact E2. }
  all: unfold Open_numrecs; rewrite exec_f_Read_bind;
    pose proof (opened_Read s1 4 Ho) as Ho2;
    pose proof (Read_error s1 4) as He2;
    destruct (os.Read s1 4) as [[[buf m] [e|]] s2]; cbn [fst snd] in *;
    [ rewrite exec_f_Close_bind; cbn [exec fst snd];
      split; [apply Close_closed|];
      right; right; left; left; apply He2; [apply Ho|reflexivity]
    | pose proof (Open_lists_outcome
                    (mkFile h (nth 3 hdr x00) (BigEndian_Uint32 buf) [] [])
                    s2 Ho2) as HL;
      destruct (fst (exec (Open_lists
                  (mkFile h (nth 3 hdr x00) (BigEndian_Uint32 buf) [] [])) s2))
        as [[nc|] [e|]]; try exact HL;
      destruct HL as [HL1 HL2]; split; [exact HL1|]; right; right; exact HL2 ].
Qed.

(** X1.  [Open] closes the file on every failure and on no success: when it
    returns a file the handle is still open, and when it returns an error
    after [os.Open] succeeded the handle has been closed. *)
Theorem Open_closes_the_file_exactly_when_it_fails :
  forall (fs : os.FileSystem) (path : string) (d : list byte),
  fs path = Some d ->
  (forall nc,
      Open fs path = (Some nc, None) ->
      os.closed (snd (exec (Open_file (os.mkFile path))
                           (os.mkState d 0 false))) = false)
  /\ (forall e,
         Open fs path = (None, Some e) ->
         os.closed (snd (exec (Open_file (os.mkFile path))
                              (os.mkState d 0 false))) = true).
Proof.
  intros fs path d Hfs.
  assert (Hs : opened (os.mkState d 0 false)) by (split; [reflexivity|simpl; lia]).
  pose proof (Open_file_outcome (os.mkFile path) _ Hs) as H.
  unfold Open, os.Open. rewrite Hfs.
  split.
  - intros nc Hnc. rewrite Hnc in H. exact H.
  - intros e He. rewrite He in H. apply H.
Qed.

(** A file that is cut off after its magic: [Open] fails and closes it. *)
Lemma Open_closes_the_file_exactly_when_it_fails_witness :
  os.closed (snd (exec (Open_file (os.mkFile "m.nc"))
                       (os.mkState [x43; x44; x46; x01] 0 false))) = true.
Proof.
  apply (proj2 (Open_closes_the_file_exactly_when_it_fails
                  (single_file "m.nc" [x43; x44; x46; x01]) "m.nc"%string
                  [x43; x44; x46; x01] eq_refl) EOF).
  vm_compute. reflexivity.
Defined.



(** ** 32-bit words *)

Lemma byte_to_Z_range b : 0 <= byte_to_Z b < 256.
Proof.
  unfold byte_to_Z. pose proof (Byte.to_N_bounded b). lia.
Qed.

Lemma land_low_shiftl a b n :
  0 <= n -> 0 <= a < 2 ^ n -> Z.land a (Z.shiftl b n) = 0.
Proof.
  intros Hn Ha. apply Z.bits_inj'. intros i Hi.
  rewrite Z.land_spec, Z.bits_0.
  destruct (Z.lt_ge_cases i n) as [Hlt|Hge].
  - rewrite (Z.shiftl_spec_low b n i Hlt). apply andb_false_r.
  - assert (Z.testbit a i = false) as ->; [|reflexivity].
    destruct (Z.eq_dec a 0) as [->|Hne]; [apply Z.bits_0|].
    apply Z.bits_above_log2; [lia|].
    apply Z.log2_lt_pow2; [lia|].
    apply Z.lt_le_trans with (2 ^ n); [lia|].
    apply Z.pow_le_mono_r; lia.
Qed.

Lemma lor_shiftl_add a b n :
  0 <= n -> 0 <= a < 2 ^ n -> Z.lor a (Z.shiftl b n) = a + b * 2 ^ n.
Proof.
  intros Hn Ha.
  pose proof (Z.add_lor_land a (Z.shiftl b n)) as H.
  rewrite (land_low_shiftl a b n Hn Ha), Z.add_0_r in H.
  rewrite H, Z.shiftl_mul_pow2 by exact Hn. reflexivity.
Qed.

Lemma BigEndian_Uint32_value b :
  BigEndian_Uint32 b =
  byte_to_Z (nth 0 b x00) * 2 ^ 24 + byte_to_Z (nth 1 b x00) * 2 ^ 16
  + byte_to_Z (nth 2 b x00) * 2 ^ 8 + byte_to_Z (nth 3 b x00).
Proof.
  unfold BigEndian_Uint32.
  pose proof (byte_to_Z_range (nth 0 b x00)).
  pose proof (byte_to_Z_range (nth 1 b x00)).
  pose proof (byte_to_Z_range (nth 2 b x00)).
  pose proof (byte_to_Z_range (nth 3 b x00)).
  rewrite (lor_shiftl_add (byte_to_Z (nth 3 b x00)) _ 8) by lia.
  rewrite (lor_shiftl_add _ _ 16) by lia.
  rewrite (lor_shiftl_add _ _ 24) by lia.
  lia.
Qed.

Lemma BigEndian_Uint32_range b : 0 <= BigEndian_Uint32 b < 2 ^ 32.
Proof.
  rewrite BigEndian_Uint32_value.
  pose proof (byte_to_Z_range (nth 0 b x00)).
  pose proof (byte_to_Z_range (nth 1 b x00)).
  pose proof (byte_to_Z_range (nth 2 b x00)).
  pose proof (byte_to_Z_range (nth 3 b x00)).
  lia.
Qed.



Lemma length_slice_full d off n :
  0 <= off -> 0 <= n -> off + n <= Z.of_nat (List.length d) ->
  List.length (os.slice d off n) = Z.to_nat n.
Proof.
  intros Ho Hn Hs. unfold os.slice.
  rewrite length_firstn, length_skipn. lia.
Qed.

Lemma slice_at_split pre x rest :
  os.slice (pre ++ x ++ rest) (Z.of_nat (List.length pre))
           (Z.of_nat (List.length x)) = x.
Proof.
  unfold os.slice. rewrite !Nat2Z.id.
  rewrite skipn_app, Nat.sub_diag, skipn_all. cbn [app skipn].
  rewrite firstn_app, Nat.sub_diag, firstn_all. cbn [firstn].
  apply app_nil_r.
Qed.

Lemma at_split_step pre x rest :
  advance (at_split pre (x ++ rest)) (Z.of_nat (List.length x))
  = at_split (pre ++ x) rest.
Proof.
  unfold advance, at_split. cbn [os.data os.offset].
  rewrite length_app, Nat2Z.inj_add, app_assoc. reflexivity.
Qed.

Lemma size_at_split pre rest :
  os.size (at_split pre rest)
  = Z.of_nat (List.length pre) + Z.of_nat (List.length rest).
Proof.
  unfold os.size, at_split. cbn [os.data]. rewrite length_app. lia.
Qed.

(** A read that asks for more than the file has left. *)
Lemma Read_short pre rest len :
  (0 < List.length rest)%nat -> Z.of_nat (List.length rest) < len ->
  os.Read (at_split pre rest) len
  = ((rest ++ os.zeros (len - Z.of_nat (List.length rest)),
      Z.of_nat (List.length rest), None),
     at_split (pre ++ rest) []).
Proof.
  intros H0 Hlen. unfold os.Read, os.size, at_split.
  cbn [os.closed os.data os.offset].
  rewrite length_app, Nat2Z.inj_add.
  replace (Z.of_nat (List.length pre) + Z.of_nat (List.length rest)
           - Z.of_nat (List.length pre))
    with (Z.of_nat (List.length rest)) by lia.
  rewrite Z.min_r by lia.
  destruct (len <=? 0) eqn:E1; [zlia|].
  destruct (Z.of_nat (List.length rest) <=? 0) eqn:E2; [zlia|].
  replace (pre ++ rest) with (pre ++ rest ++ []) at 1
    by (rewrite app_nil_r; reflexivity).
  rewrite slice_at_split, !app_nil_r. reflexivity.
Qed.

(** [readU32] over a whole word that starts at the offset. *)
Lemma readU32_at_split pre b0 b1 b2 b3 rest :
  exec readU32 (at_split pre (b0 :: b1 :: b2 :: b3 :: rest))
  = (Ok (BigEndian_Uint32 [b0; b1; b2; b3]),
     at_split (pre ++ [b0; b1; b2; b3]) rest).
Proof.
  rewrite readU32_full.
  - change (b0 :: b1 :: b2 :: b3 :: rest) with ([b0; b1; b2; b3] ++ rest).
    change 4 with (Z.of_nat (List.length [b0; b1; b2; b3])) at 2.
    rewrite at_split_step. f_equal. f_equal. f_equal.
    unfold at_split. cbn [os.data os.offset].
    apply (slice_at_split pre [b0; b1; b2; b3] rest).
  - reflexivity.
  - rewrite size_at_split. unfold at_split; cbn [os.offset List.length]. lia.
Qed.

(** X3.  [readU32] over four bytes [b0 b1 b2 b3] at the offset returns
    [b0 * 2^24 + b1 * 2^16 + b2 * 2^8 + b3], a value below [2^32], and
    leaves the file 4 bytes further on, whatever comes before and after
    them. *)
Theorem readU32_is_big_endian :
  forall (pre rest : list byte) (b0 b1 b2 b3 : byte),
  exec readU32 (at_split pre (b0 :: b1 :: b2 :: b3 :: rest))
  = (Ok (byte_to_Z b0 * 2 ^ 24 + byte_to_Z b1 * 2 ^ 16
         + byte_to_Z b2 * 2 ^ 8 + byte_to_Z b3),
     at_split (pre ++ [b0; b1; b2; b3]) rest)
  /\ 0 <= byte_to_Z b0 * 2 ^ 24 + byte_to_Z b1 * 2 ^ 16
          + byte_to_Z b2 * 2 ^ 8 + byte_to_Z b3 < 2 ^ 32.
Proof.
  intros pre rest b0 b1 b2 b3.
  pose proof (BigEndian_Uint32_value [b0; b1; b2; b3]) as HV.
  pose proof (BigEndian_Uint32_range [b0; b1; b2; b3]) as HR.
  cbn [nth] in HV. rewrite HV in HR. split; [|exact HR].
  rewrite readU32_at_split, HV. reflexivity.
Qed.

(** X4.  A word cut short by the end of the file is accepted: with one, two
    or three bytes left, [readU32] returns no error but the value of those
    bytes followed by zero bytes, and leaves the file at its end. *)
Theorem readU32_accepts_a_truncated_word :
  forall (pre rest : list byte),
  (0 < List.length rest < 4)%nat ->
  exec readU32 (at_split pre rest)
  = (Ok (byte_to_Z (nth 0 rest x00) * 2 ^ 24
         + byte_to_Z (nth 1 rest x00) * 2 ^ 16
         + byte_to_Z (nth 2 rest x00) * 2 ^ 8),
     at_split (pre ++ rest) []).
Proof.
  intros pre rest Hlen.
  rewrite exec_readU32, (Read_short pre rest 4) by lia.
  rewrite BigEndian_Uint32_value.
  assert (Hn : forall i, (i < 4)%nat ->
             nth i (rest ++ os.zeros (4 - Z.of_nat (List.length rest))) x00
             = nth i rest x00).
  { intros i Hi. destruct (Nat.ltb i (List.length rest)) eqn:El.
    - apply Nat.ltb_lt in El. apply app_nth1; exact El.
    - apply Nat.ltb_ge in El. rewrite app_nth2 by exact El.
      rewrite (nth_overflow rest) by exact El.
      unfold os.zeros. apply nth_repeat. }
  rewrite !Hn by lia.
  rewrite (nth_overflow rest x00 (n := 3)) by lia.
  change (byte_to_Z x00) with 0. rewrite Z.add_0_r.
  reflexivity.
Qed.

(** A file that ends one byte into a word. *)
Lemma readU32_accepts_a_truncated_word_witness :
  exec readU32 (at_split [x43; x44; x46; x01] [x01])
  = (Ok (1 * 2 ^ 24 + 0 * 2 ^ 16 + 0 * 2 ^ 8),
     at_split ([x43; x44; x46; x01] ++ [x01]) []).
Proof.
  exact (readU32_accepts_a_truncated_word [x43; x44; x46; x01] [x01]
           ltac:(cbn; lia)).
Defined.

(** ** Lengths of what is decoded *)

Lemma Read_buffer_length s len :
  opened s -> snd (fst (os.Read s len)) = None ->
  List.length (fst (fst (fst (os.Read s len)))) = Z.to_nat len.
Proof.
  intros [Hc Ho]. unfold os.Read. rewrite Hc.
  destruct (len <=? 0) eqn:E1; [intros _; cbn [fst snd List.length]; zlia|].
  destruct (Z.min len (os.size s - os.offset s) <=? 0) eqn:E2; [discriminate|].
  intros _. cbn [fst snd]. unfold os.zeros, os.size in *.
  rewrite length_app, repeat_length, length_slice_full by zlia.
  zlia.
Qed.

Lemma length_string_of_list_byte l :
  String.length (string_of_list_byte l) = List.length l.
Proof.
  unfold string_of_list_byte.
  induction l as [|b l IH]; cbn [map string_of_list_ascii String.length];
    [reflexivity | rewrite IH; reflexivity].
Qed.

Lemma readU32_opened s v s1 :
  opened s -> exec readU32 s = (Ok v, s1) -> opened s1.
Proof.
  intros Hs H. pose proof (proj1 (decodes_readU32 s Hs)) as Ho.
  rewrite H in Ho. exact Ho.
Qed.

Lemma readString_opened s v s1 :
  opened s -> exec readString s = (Ok v, s1) -> opened s1.
Proof.
  intros Hs H. pose proof (proj1 (decodes_readString s Hs)) as Ho.
  rewrite H in Ho. exact Ho.
Qed.

Lemma readString_Ok_length s N s1 name s' :
  opened s -> exec readU32 s = (Ok N, s1) ->
  exec readString s = (Ok name, s') ->
  String.length name = Z.to_nat N.
Proof.
  intros Hs HN. pose proof (readU32_opened s N s1 Hs HN) as Ho.
  unfold readString. rewrite (exec_try_Ok _ _ _ _ _ HN), exec_f_Read_bind.
  pose proof (Read_buffer_length s1 N Ho) as HL.
  destruct (os.Read s1 N) as [[[buf k] [e|]] s2]; cbn [fst snd] in *;
    [discriminate|].
  specialize (HL eq_refl).
  destruct (0 <? padding N).
  - rewrite exec_f_Seek_bind.
    destruct (os.Seek s2 (padding N) 1) as [[pos [e|]] s3]; cbn [fst snd exec];
      [discriminate|].
    intros H; inversion H; subst. rewrite length_string_of_list_byte. exact HL.
  - cbn [exec]. intros H; inversion H; subst.
    rewrite length_string_of_list_byte. exact HL.
Qed.

Lemma readAttr_Ok_fields s0 name atype nvals s a s' :
  opened s0 -> attr_reaches_values s0 name atype nvals s ->
  exec readAttr s0 = (Ok a, s') ->
  Attribute_Name a = name /\ Attribute_Type a = atype
  /\ List.length (Attribute_Values a) = Z.to_nat nvals.
Proof.
  intros Hs (s1 & s2 & H1 & H2 & H3).
  pose proof (readString_opened _ _ _ Hs H1) as Ho1.
  pose proof (readU32_opened _ _ _ Ho1 H2) as Ho2.
  pose proof (readU32_opened _ _ _ Ho2 H3) as Ho.
  unfold readAttr.
  rewrite (exec_try_Ok _ _ _ _ _ H1), (exec_try_Ok _ _ _ _ _ H2),
          (exec_try_Ok _ _ _ _ _ H3), exec_f_Read_bind.
  pose proof (Read_buffer_length s nvals Ho) as HL.
  destruct (os.Read s nvals) as [[[buf k] [e|]] s3]; cbn [fst snd] in *;
    [discriminate|].
  specialize (HL eq_refl).
  destruct (0 <? padding nvals).
  - rewrite exec_f_Seek_bind. cbn [exec].
    intros H; inversion H; subst. cbn. auto.
  - cbn [exec]. intros H; inversion H; subst. cbn. auto.
Qed.

(** X5.  A decoded text always has the declared length: when [readString]
    succeeds after the length word [N], the text has exactly [N] bytes, also
    when the file ended inside the payload (the missing bytes are zero
    bytes).  In the same way a decoded attribute carries the name and type
    read and exactly [nvals] value bytes. *)
Theorem decoded_lengths_are_the_declared_ones :
  (forall s N s1 name s',
      opened s -> exec readU32 s = (Ok N, s1) ->
      exec readString s = (Ok name, s') ->
      String.length name = Z.to_nat N)
  /\ (forall s0 name atype nvals s a s',
         opened s0 -> attr_reaches_values s0 name atype nvals s ->
         exec readAttr s0 = (Ok a, s') ->
         Attribute_Name a = name /\ Attribute_Type a = atype
         /\ List.length (Attribute_Values a) = Z.to_nat nvals).
Proof.
  split.
  - exact readString_Ok_length.
  - exact readAttr_Ok_fields.
Qed.

(** A text of declared length 5 in a file that ends after 2 of its bytes. *)
Lemma decoded_lengths_are_the_declared_ones_witness :
  String.length (string_of_list_byte [x61; x62; x00; x00; x00]) = Z.to_nat 5.
Proof.
  apply (proj1 decoded_lengths_are_the_declared_ones
           (os.mkState [x00; x00; x00; x05; x61; x62] 0 false) 5
           (os.mkState [x00; x00; x00; x05; x61; x62] 4 false)
           (string_of_list_byte [x61; x62; x00; x00; x00])
           (os.mkState [x00; x00; x00; x05; x61; x62] 9 false)).
  - split; [reflexivity | cbn; lia].
  - vm_compute. reflexivity.
  - vm_compute. reflexivity.
Defined.

(** ** Counts *)

Lemma readDims_length n : forall dims s r s',
  exec (readDims n dims) s = (Ok r, s') ->
  List.length r = (List.length dims + n)%nat.
Proof.
  induction n as [|n IH]; intros dims s r s'; cbn [readDims].
  - cbn [exec]. intros H; inversion H; subst. lia.
  - rewrite exec_try.
    destruct (exec readDim s) as [[d|e] s1]; cbn [fst snd]; [|discriminate].
    intros H. apply IH in H. rewrite length_app in H. cbn [List.length] in H. lia.
Qed.

Lemma readAttrs_length n : forall attrs s r s',
  exec (readAttrs n attrs) s = (Ok r, s') ->
  List.length r = (List.length attrs + n)%nat.
Proof.
  induction n as [|n IH]; intros attrs s r s'; cbn [readAttrs].
  - cbn [exec]. intros H; inversion H; subst. lia.
  - rewrite exec_try.
    destruct (exec readAttr s) as [[d|e] s1]; cbn [fst snd]; [|discriminate].
    intros H. apply IH in H. rewrite length_app in H. cbn [List.length] in H. lia.
Qed.

Lemma readVars_length n : forall vars s r s',
  exec (readVars n vars) s = (Ok r, s') ->
  List.length r = (List.length vars + n)%nat.
Proof.
  induction n as [|n IH]; intros vars s r s'; cbn [readVars].
  - cbn [exec]. intros H; inversion H; subst. lia.
  - rewrite exec_try.
    destruct (exec readVar s) as [[d|e] s1]; cbn [fst snd]; [|discriminate].
    intros H. apply IH in H. rewrite length_app in H. cbn [List.length] in H. lia.
Qed.

Lemma set_index_length l : forall j v,
  List.length (set_index l j v) = List.length l.
Proof.
  induction l as [|x l IH]; intros [|j] v; cbn [set_index List.length];
    try reflexivity.
  rewrite IH. reflexivity.
Qed.

Lemma readDimIDs_length n : forall j ids s r s',
  exec (readDimIDs n j ids) s = (Ok r, s') ->
  List.length r = List.length ids.
Proof.
  induction n as [|n IH]; intros j ids s r s'; cbn [readDimIDs].
  - cbn [exec]. intros H; inversion H; subst. reflexivity.
  - rewrite exec_try.
    destruct (exec readU32 s) as [[v|e] s1]; cbn [fst snd]; [|discriminate].
    intros H. apply IH in H. rewrite set_index_length in H. exact H.
Qed.

(** X6.  A list is decoded whole or not at all.  When [readDimList]
    succeeds after the tag word [tag], either [tag] is 0 and there are no
    dimensions, or [tag] is [0x0A] and the number of dimensions is the
    count word that follows; likewise for [readAttrList] ([0x0C]) and
    [readVarList] ([0x0B]).  A decoded variable has as many dimension ids as
    its [nDims] word says. *)
Theorem decoded_counts_are_the_declared_ones :
  (forall nc s tag s1 nc1 s',
      exec readU32 s = (Ok tag, s1) ->
      exec (readDimList nc) s = (Ok nc1, s') ->
      (tag = 0 /\ Dims nc1 = [] /\ s' = s1)
      \/ (tag = 0x0A /\ exists nelems s2,
             exec readU32 s1 = (Ok nelems, s2)
             /\ List.length (Dims nc1) = Z.to_nat nelems))
  /\ (forall s tag s1 attrs s',
         exec readU32 s = (Ok tag, s1) ->
         exec readAttrList s = (Ok attrs, s') ->
         (tag = 0 /\ attrs = [] /\ s' = s1)
         \/ (tag = 0x0C /\ exists nelems s2,
                exec readU32 s1 = (Ok nelems, s2)
                /\ List.length attrs = Z.to_nat nelems))
  /\ (forall nc s tag s1 nc1 s',
         exec readU32 s = (Ok tag, s1) ->
         exec (readVarList nc) s = (Ok nc1, s') ->
         (tag = 0 /\ Vars nc1 = [] /\ s' = s1)
         \/ (tag = 0x0B /\ exists nelems s2,
                exec readU32 s1 = (Ok nelems, s2)
                /\ List.length (Vars nc1) = Z.to_nat nelems))
  /\ (forall s name s1 nDims s2 v s',
         exec readString s = (Ok name, s1) ->
         exec readU32 s1 = (Ok nDims, s2) ->
         exec readVar s = (Ok v, s') ->
         Variable_Name v = name
         /\ List.length (DimIDs v) = Z.to_nat nDims).
Proof.
  split; [|split; [|split]].
  - intros nc s tag s1 nc1 s' Ht. rewrite (readDimList_tag nc s tag s1 Ht).
    destruct (tag =? 0) eqn:E0.
    { intros H; inversion H; subst. left. repeat split. zlia. }
    destruct (tag =? 0x0A) eqn:E1; cbn [negb]; [|discriminate].
    rewrite exec_try.
    destruct (exec readU32 s1) as [[nelems|e] s2]; cbn [fst snd]; [|discriminate].
    rewrite exec_try.
    destruct (exec (readDims (Z.to_nat nelems) []) s2) as [[dims|e] s3] eqn:HD;
      cbn [fst snd exec]; [|discriminate].
    intros H; inversion H; subst. right. split; [zlia|].
    exists nelems, s2. split; [reflexivity|].
    apply readDims_length in HD. exact HD.
  - intros s tag s1 attrs s' Ht. rewrite (readAttrList_tag s tag s1 Ht).
    destruct (tag =? 0) eqn:E0.
    { intros H; inversion H; subst. left. repeat split. zlia. }
    destruct (tag =? 0x0C) eqn:E1; cbn [negb]; [|discriminate].
    rewrite exec_try.
    destruct (exec readU32 s1) as [[nelems|e] s2]; cbn [fst snd]; [|discriminate].
    intros HA. right. split; [zlia|].
    exists nelems, s2. split; [reflexivity|].
    apply readAttrs_length in HA. exact HA.
  - intros nc s tag s1 nc1 s' Ht. rewrite (readVarList_tag nc s tag s1 Ht).
    destruct (tag =? 0) eqn:E0.
    { intros H; inversion H; subst. left. repeat split. zlia. }
    destruct (tag =? 0x0B) eqn:E1; cbn [negb]; [|discriminate].
    rewrite exec_try.
    destruct (exec readU32 s1) as [[nelems|e] s2]; cbn [fst snd]; [|discriminate].
    rewrite exec_try.
    destruct (exec (readVars (Z.to_nat nelems) []) s2) as [[vars|e] s3] eqn:HD;
      cbn [fst snd exec]; [|discriminate].
    intros H; inversion H; subst. right. split; [zlia|].
    exists nelems, s2. split; [reflexivity|].
    apply readVars_length in HD. exact HD.
  - intros s name s1 nDims s2 v s' H1 H2. unfold readVar.
    rewrite (exec_try_Ok _ _ _ _ _ H1), (exec_try_Ok _ _ _ _ _ H2), exec_try.
    destruct (exec (readDimIDs (Z.to_nat nDims) 0 (repeat 0 (Z.to_nat nDims))) s2)
      as [[ids|e] s3] eqn:HI; cbn [fst snd]; [|discriminate].
    apply readDimIDs_length in HI. rewrite repeat_length in HI.
    rewrite exec_try.
    destruct (exec readAttrList s3) as [[attrs|e] s4]; cbn [fst snd]; [|discriminate].
    rewrite exec_try.
    destruct (exec readU32 s4) as [[dtype|e] s5]; cbn [fst snd]; [|discriminate].
    rewrite exec_try.
    destruct (exec readU32 s5) as [[vsize|e] s6]; cbn [fst snd]; [|discriminate].
    rewrite exec_try.
    destruct (exec readU32 s6) as [[off|e] s7]; cbn [fst snd exec]; [|discriminate].
    intros H; inversion H; subst. cbn. auto.
Qed.

(** The dimension list of [header_lat], decoded at offset 8. *)
Lemma decoded_counts_are_the_declared_ones_witness :
  (0x0A = 0 /\ [lat_dim] = [] /\
   os.mkState header_lat 28 false = os.mkState header_lat 12 false)
  \/ (0x0A = 0x0A /\ exists nelems s2,
         exec readU32 (os.mkState header_lat 12 false) = (Ok nelems, s2)
         /\ List.length [lat_dim] = Z.to_nat nelems).
Proof.
  exact (proj1 decoded_counts_are_the_declared_ones
           (initial_File "l.nc" header_lat)
           (os.mkState header_lat 8 false) 0x0A
           (os.mkState header_lat 12 false)
           (mkFile (os.mkFile "l.nc") ClassicFormat 0 [lat_dim] [])
           (os.mkState header_lat 28 false) eq_refl eq_refl).
Defined.

(** ** The order of the reads *)

Lemma chain_read_count tr : forall p i,
  chain p tr -> (read_count tr i <= 1)%nat
                /\ (i < p -> read_count tr i = 0%nat).
Proof.
  unfold read_count.
  induction tr as [|[a b|a b|] tr IH]; cbn [chain filter]; intros p i H.
  - cbn. split; [lia|reflexivity].
  - destruct H as (H1 & H2 & H3). destruct (IH b i H3) as [IH1 IH2].
    destruct (in_range a b i) eqn:E; cbn [List.length].
    + apply in_range_spec in E. rewrite IH2 by lia. split; lia.
    + split; [exact IH1|]. intros Hi. apply IH2. lia.
  - destruct H as (H1 & H2 & H3). destruct (IH b i H3) as [IH1 IH2].
    split; [exact IH1|]. intros Hi. apply IH2. lia.
  - apply IH. exact H.
Qed.

(** X7.  [Open] goes through the file once, front to back: every read and
    every seek starts at or after the place where the one before it ended
    ([chain]), so no position is read twice and no position that was
    skipped is read. *)
Theorem Open_reads_front_to_back :
  forall (fs : os.FileSystem) (path : string) (i : Z),
  chain 0 (Open_trace fs path)
  /\ (read_count (Open_trace fs path) i <= 1)%nat
  /\ (readb (Open_trace fs path) i = true ->
      skippedb (Open_trace fs path) i = false).
Proof.
  intros fs path i.
  assert (H : chain 0 (Open_trace fs path)).
  { unfold Open_trace, os.Open. destruct (fs path) as [d|]; [|exact I].
    exact (forward_chain _ (forward_Open_file (os.mkFile path))
                         (os.mkState d 0 false)). }
  split; [exact H|]. split.
  - exact (proj1 (chain_read_count _ 0 i H)).
  - exact (chain_read_not_skipped _ 0 i H).
Qed.

(** The reads of [Open] on [header_lat ++ var_list_temp]. *)
Lemma Open_reads_front_to_back_witness :
  skippedb (Open_trace (single_file "t.nc" file_no_gatt) "t.nc") 20 = false.
Proof.
  apply (proj2 (proj2 (Open_reads_front_to_back
                         (single_file "t.nc" file_no_gatt) "t.nc"%string 20))).
  vm_compute. reflexivity.
Defined.

(** ** What lies after the header *)

Lemma slice_agree_prefix d1 d2 off n bound :
  0 <= off -> off + n <= bound ->
  (forall i, 0 <= i < bound -> byte_at d1 i = byte_at d2 i) ->
  os.slice d1 off n = os.slice d2 off n.
Proof.
  intros Ho Hb H. apply slice_agree; [exact Ho|].
  intros i Hi. apply H. lia.
Qed.

Lemma Read_prefix s1 s2 len bound :
  os.offset s1 = os.offset s2 -> os.closed s1 = os.closed s2 ->
  0 <= os.offset s1 ->
  os.offset (snd (os.Read s1 len)) <= bound ->
  bound < os.size s1 -> bound <= os.size s2 ->
  (forall i, 0 <= i < bound ->
             byte_at (os.data s1) i = byte_at (os.data s2) i) ->
  fst (os.Read s1 len) = fst (os.Read s2 len)
  /\ os.offset (snd (os.Read s1 len)) = os.offset (snd (os.Read s2 len))
  /\ os.closed (snd (os.Read s1 len)) = os.closed (snd (os.Read s2 len)).
Proof.
  destruct s1 as [d1 o1 c1], s2 as [d2 o2 c2].
  unfold os.Read, os.size. cbn [os.data os.offset os.closed].
  intros <- <- Ho.
  destruct c1; [cbn [fst snd os.offset os.closed]; auto|].
  destruct (len <=? 0) eqn:El; [cbn [fst snd os.offset os.closed]; auto|].
  destruct (Z.min len (Z.of_nat (List.length d1) - o1) <=? 0) eqn:E1.
  { cbn [fst snd os.offset]. intros Hb H1 H2 Hd. zlia. }
  cbn [fst snd os.offset os.closed]. intros Hb H1 H2 Hd.
  assert (Hm1 : Z.min len (Z.of_nat (List.length d1) - o1) = len) by zlia.
  assert (Hm2 : Z.min len (Z.of_nat (List.length d2) - o1) = len) by zlia.
  rewrite Hm1 in *. rewrite Hm2.
  destruct (len <=? 0) eqn:El'; [zlia|]. cbn [fst snd os.offset os.closed].
  rewrite (slice_agree_prefix d1 d2 o1 len bound Ho Hb Hd). auto.
Qed.

Lemma Seek_cur_same s1 s2 off :
  os.offset s1 = os.offset s2 -> os.closed s1 = os.closed s2 ->
  fst (os.Seek s1 off 1) = fst (os.Seek s2 off 1)
  /\ os.offset (snd (os.Seek s1 off 1)) = os.offset (snd (os.Seek s2 off 1))
  /\ os.closed (snd (os.Seek s1 off 1)) = os.closed (snd (os.Seek s2 off 1)).
Proof.
  destruct s1 as [d1 o1 c1], s2 as [d2 o2 c2].
  unfold os.Seek. cbn [os.data os.offset os.closed Z.eqb Pos.eqb].
  intros <- <-.
  destruct c1; [cbn [fst snd os.offset os.closed]; auto|].
  destruct (o1 + off <? 0); cbn [fst snd os.offset os.closed]; auto.
Qed.

Lemma Close_same s1 s2 :
  os.offset s1 = os.offset s2 -> os.closed s1 = os.closed s2 ->
  fst (os.Close s1) = fst (os.Close s2)
  /\ os.offset (snd (os.Close s1)) = os.offset (snd (os.Close s2))
  /\ os.closed (snd (os.Close s1)) = os.closed (snd (os.Close s2)).
Proof.
  destruct s1 as [d1 o1 c1], s2 as [d2 o2 c2].
  unfold os.Close. cbn [os.data os.offset os.closed].
  intros <- <-. destruct c1; cbn [fst snd os.offset os.closed]; auto.
Qed.

Lemma forward_exec_prefix {A : Type} (m : io A) :
  forward m ->
  forall s1 s2,
    os.offset s1 = os.offset s2 -> os.closed s1 = os.closed s2 ->
    0 <= os.offset s1 ->
    os.offset (snd (exec m s1)) < os.size s1 ->
    os.offset (snd (exec m s1)) <= os.size s2 ->
    (forall i, 0 <= i < os.offset (snd (exec m s1)) ->
               byte_at (os.data s1) i = byte_at (os.data s2) i) ->
    fst (exec m s1) = fst (exec m s2)
    /\ os.offset (snd (exec m s1)) = os.offset (snd (exec m s2))
    /\ os.closed (snd (exec m s1)) = os.closed (snd (exec m s2)).
Proof.
  induction 1 as [a|len k Hk IH|off k Hoff Hk IH|k Hk IH];
    intros s1 s2 Ho Hc Hn H1 H2 Hd.
  - cbn [exec fst snd]. auto.
  - cbn [exec] in *.
    pose proof (forward_offset_le _ (Hk (fst (os.Read s1 len)))
                                  (snd (os.Read s1 len))) as Hle.
    pose proof (Read_data s1 len) as D1. pose proof (Read_data s2 len) as D2.
    pose proof (Read_offset_nonneg s1 len Hn) as Hn'.
    pose proof (Read_prefix s1 s2 len) as HR.
    destruct (os.Read s1 len) as [r1 s1'], (os.Read s2 len) as [r2 s2'].
    cbn [fst snd] in *.
    destruct (HR _ Ho Hc Hn Hle H1 H2 Hd) as (Hr & Ho' & Hc'). subst r2.
    apply IH; try assumption.
    + unfold os.size in *. rewrite D1. exact H1.
    + unfold os.size in *. rewrite D2. exact H2.
    + rewrite D1, D2. exact Hd.
  - cbn [exec] in *.
    pose proof (Seek_data s1 off 1) as D1. pose proof (Seek_data s2 off 1) as D2.
    pose proof (Seek_offset_nonneg s1 off 1 Hn) as Hn'.
    pose proof (Seek_cur_same s1 s2 off Ho Hc) as (Hr & Ho' & Hc').
    destruct (os.Seek s1 off 1) as [r1 s1'], (os.Seek s2 off 1) as [r2 s2'].
    cbn [fst snd] in *. subst r2.
    apply IH; try assumption.
    + unfold os.size in *. rewrite D1. exact H1.
    + unfold os.size in *. rewrite D2. exact H2.
    + rewrite D1, D2. exact Hd.
  - cbn [exec] in *.
    pose proof (Close_data s1) as D1. pose proof (Close_data s2) as D2.
    pose proof (Close_offset s1) as O1.
    pose proof (Close_same s1 s2 Ho Hc) as (Hr & Ho' & Hc').
    destruct (os.Close s1) as [r1 s1'], (os.Close s2) as [r2 s2'].
    cbn [fst snd] in *. subst r2.
    apply IH; try assumption; try lia.
    + unfold os.size in *. rewrite D1. exact H1.
    + unfold os.size in *. rewrite D2. exact H2.
    + rewrite D1, D2. exact Hd.
Qed.

(** X8.  [Open] does not look past the place where it stops.  When it
    stops before the end of the file, another file that has the same bytes
    up to that place (and is at least that long) gives the same result,
    whatever follows: the data of the variables is never read. *)
Theorem Open_ignores_what_follows_the_header :
  forall (fs1 fs2 : os.FileSystem) (path : string) (d1 d2 : list byte),
  fs1 path = Some d1 -> fs2 path = Some d2 ->
  Open_end path d1 < Z.of_nat (List.length d1) ->
  Open_end path d1 <= Z.of_nat (List.length d2) ->
  (forall i, 0 <= i < Open_end path d1 -> byte_at d1 i = byte_at d2 i) ->
  Open fs1 path = Open fs2 path /\ Open_end path d2 = Open_end path d1.
Proof.
  intros fs1 fs2 path d1 d2 H1 H2 Hlt Hle Hd.
  unfold Open, os.Open, Open_end in *. rewrite H1, H2.
  destruct (forward_exec_prefix (Open_file (os.mkFile path))
              (forward_Open_file _)
              (os.mkState d1 0 false) (os.mkState d2 0 false)
              eq_refl eq_refl (Z.le_refl 0) Hlt Hle Hd)
    as (E1 & E2 & _).
  split; [exact E1 | symmetry; exact E2].
Qed.

(** [header_lat ++ var_list_temp] followed by one byte, and followed by four
    other bytes: [Open] stops at offset 68 on both. *)
Lemma Open_ignores_what_follows_the_header_witness :
  Open (single_file "t.nc" (file_no_gatt ++ [x00])) "t.nc"
  = Open (single_file "t.nc" (file_no_gatt ++ [x01; x02; x03; x04])) "t.nc"
  /\ Open_end "t.nc" (file_no_gatt ++ [x01; x02; x03; x04])
     = Open_end "t.nc" (file_no_gatt ++ [x00]).
Proof.
  apply (Open_ignores_what_follows_the_header
           (single_file "t.nc" (file_no_gatt ++ [x00]))
           (single_file "t.nc" (file_no_gatt ++ [x01; x02; x03; x04]))
           "t.nc"%string
           (file_no_gatt ++ [x00]) (file_no_gatt ++ [x01; x02; x03; x04])
           eq_refl eq_refl).
  - vm_compute. reflexivity.
  - vm_compute. discriminate.
  - intros i Hi.
    assert (E : Open_end "t.nc" (file_no_gatt ++ [x00]) = 68)
      by (vm_compute; reflexivity).
    rewrite E in Hi.
    unfold byte_at. destruct (i <? 0) eqn:E0; [reflexivity|].
    assert (Hn : (Z.to_nat i < 68)%nat) by lia.
    assert (L : List.length file_no_gatt = 68%nat) by reflexivity.
    rewrite !nth_error_app1 by (rewrite L; exact Hn). reflexivity.
Defined.

(** ** [Close] *)



(** ** The earlier version of the package *)

Lemma Prototype_readDimList p nc s :
  exec (Prototype.readDimList p) s =
  (match fst (exec (readDimList nc) s) with
   | Ok nc1 => Ok (Prototype.set_Dims p (Dims nc1))
   | Err e => Err e
   end, snd (exec (readDimList nc) s)).
Proof.
  unfold Prototype.readDimList, readDimList. rewrite !exec_try.
  destruct (exec readU32 s) as [[tag|e] s1]; cbn [fst snd]; [|reflexivity].
  destruct (tag =? 0); [reflexivity|].
  destruct (negb (tag =? 0x0A)); [reflexivity|].
  rewrite !exec_try.
  destruct (exec readU32 s1) as [[nelems|e] s2]; cbn [fst snd]; [|reflexivity].
  rewrite !exec_try.
  destruct (exec (readDims (Z.to_nat nelems) []) s2) as [[dims|e] s3];
    reflexivity.
Qed.

(** The two versions of [Open] side by side: the earlier one returns what
    the current one has when its dimension list is done. *)
Lemma Prototype_Open_file h s :
  opened s ->
  match fst (exec (Prototype.Open_file h) s), fst (exec (Open_file h) s) with
  | (Some p, None), (Some nc, None) => p = as_Prototype nc
  | (Some p, None), (None, Some e) => var_list_error e
  | (None, Some e), (None, Some e') => e = e'
  | _, _ => False
  end.
Proof.
  intros Hs.
  unfold Prototype.Open_file, Open_file. rewrite !exec_f_Read_bind.
  pose proof (opened_Read s 4 Hs) as Ho1.
  destruct (os.Read s 4) as [[[hdr n] [e|]] s1]; cbn [fst snd] in *.
  { rewrite !exec_f_Close_bind. reflexivity. }
  destruct (negb (String.eqb (string_of_list_byte (firstn 3 hdr)) "CDF")).
  { rewrite !exec_f_Close_bind. reflexivity. }
  destruct (negb (Byte.eqb (nth 3 hdr x00) ClassicFormat)
            && negb (Byte.eqb (nth 3 hdr x00) Format64BitOffset)).
  { rewrite !exec_f_Close_bind. reflexivity. }
  unfold Open_numrecs. rewrite !exec_f_Read_bind.
  pose proof (opened_Read s1 4 Ho1) as Ho2.
  destruct (os.Read s1 4) as [[[buf m] [e|]] s2] eqn:ER; cbn [fst snd] in *.
  { rewrite !exec_f_Close_bind. reflexivity. }
  rewrite exec_Open_lists, exec_bind.
  rewrite (Prototype_readDimList _
             (mkFile h (nth 3 hdr x00) (BigEndian_Uint32 buf) [] [])).
  cbn [fst snd].
  pose proof (proj1 (decodes_readDimList
                       (mkFile h (nth 3 hdr x00) (BigEndian_Uint32 buf) [] [])
                       s2 Ho2)) as Ho3.
  destruct (exec (readDimList
                    (mkFile h (nth 3 hdr x00) (BigEndian_Uint32 buf) [] [])) s2)
    as [[nc1|e] s3] eqn:HD; cbn [fst snd exec] in *.
  - destruct (readDimList_Ok _ _ _ _ HD) as [dims ->].
    pose proof (proj2 (decodes_readVarList
                         (set_Dims (mkFile h (nth 3 hdr x00)
                                      (BigEndian_Uint32 buf) [] []) dims)
                         s3 Ho3)) as HE.
    destruct (exec (readVarList _) s3) as [[nc2|e] s4] eqn:HV; cbn [fst snd] in *.
    + destruct (readVarList_Ok _ _ _ _ HV) as [vars ->]. reflexivity.
    + apply HE. reflexivity.
  - rewrite exec_f_Close_bind. reflexivity.
Qed.

(** X10.  The current [Open] extends the earlier one, which stops after the
    dimension list.  Whenever the current [Open] returns a file, the earlier
    one returns the same handle, format, record count and dimensions;
    whenever the earlier one fails, the current one fails with the same
    error; and when the earlier one succeeds the current one either agrees
    with it or fails in the variable list. *)
Theorem Open_extends_the_earlier_version :
  forall (fs : os.FileSystem) (path : string),
  (forall nc,
      Open fs path = (Some nc, None) ->
      Prototype.Open fs path = (Some (as_Prototype nc), None))
  /\ (forall e,
         Prototype.Open fs path = (None, Some e) ->
         Open fs path = (None, Some e))
  /\ (forall p,
         Prototype.Open fs path = (Some p, None) ->
         (exists nc, Open fs path = (Some nc, None) /\ as_Prototype nc = p)
         \/ (exists e, Open fs path = (None, Some e) /\ var_list_error e)).
Proof.
  intros fs path. unfold Open, Prototype.Open, os.Open.
  destruct (fs path) as [d|].
  - assert (Hs : opened (os.mkState d 0 false))
      by (split; [reflexivity|simpl; lia]).
    pose proof (Prototype_Open_file (os.mkFile path) _ Hs) as H.
    destruct (fst (exec (Prototype.Open_file (os.mkFile path))
                        (os.mkState d 0 false))) as [[p|] [e|]];
      destruct (fst (exec (Open_file (os.mkFile path)) (os.mkState d 0 false)))
        as [[nc|] [e'|]]; try contradiction.
    + split; [intros nc' Hn; inversion Hn; subst; reflexivity|].
      split; [discriminate|].
      intros p' Hp; inversion Hp; subst. left. exists nc. auto.
    + split; [discriminate|]. split; [discriminate|].
      intros p' Hp; inversion Hp; subst. right. exists e'. auto.
    + subst e'. split; [discriminate|]. split; [|discriminate].
      intros e' He; inversion He; subst; reflexivity.
  - split; [discriminate|]. split; [|discriminate].
    intros e He; inversion He; reflexivity.
Qed.

(** [header_lat ++ var_list_temp] under both versions. *)
Lemma Open_extends_the_earlier_version_witness :
  Prototype.Open (single_file "t.nc" file_no_gatt) "t.nc"
  = (Some (as_Prototype
             (mkFile (os.mkFile "t.nc") ClassicFormat 0 [lat_dim] [temp_var])),
     None).
Proof.
  apply (proj1 (Open_extends_the_earlier_version
                  (single_file "t.nc" file_no_gatt) "t.nc"%string)).
  vm_compute. reflexivity.
Defined.

(** ** The shortest file *)

Lemma readU32_Ok_room s v s1 :
  opened s -> exec readU32 s = (Ok v, s1) ->
  os.offset s < os.size s
  /\ os.offset s1 = Z.min (os.offset s + 4) (os.size s).
Proof.
  intros [Hc Ho]. rewrite exec_readU32. unfold os.Read. rewrite Hc.
  change (4 <=? 0) with false. cbv iota.
  destruct (Z.min 4 (os.size s - os.offset s) <=? 0) eqn:E; [discriminate|].
  intros H; inversion H; subst. cbn [os.offset]. zlia.
Qed.

Lemma readDimList_Ok_offset nc s nc1 s1 :
  opened s -> exec (readDimList nc) s = (Ok nc1, s1) ->
  Z.min (os.offset s + 4) (os.size s) <= os.offset s1.
Proof.
  intros Hs. unfold readDimList. rewrite exec_try.
  destruct (exec readU32 s) as [[tag|e] s'] eqn:HU; cbn [fst snd]; [|discriminate].
  destruct (readU32_Ok_room s tag s' Hs HU) as [_ <-].
  intros H.
  match type of H with exec ?k s' = _ =>
    assert (Hf : forward k) by fwd;
    pose proof (forward_offset_le k Hf s') as Hle
  end.
  rewrite H in Hle. exact Hle.
Qed.

Lemma readVarList_Ok_room nc s nc1 s1 :
  opened s -> exec (readVarList nc) s = (Ok nc1, s1) ->
  os.offset s < os.size s.
Proof.
  intros Hs. unfold readVarList. rewrite exec_try.
  destruct (exec readU32 s) as [[tag|e] s'] eqn:HU; cbn [fst snd]; [|discriminate].
  intros _. exact (proj1 (readU32_Ok_room s tag s' Hs HU)).
Qed.

(** X11.  [Open] never succeeds on a file shorter than 13 bytes: the
    magic and format (4), the record count (4), the whole tag word of the
    dimension list (4) and at least one byte of the tag word of the variable
    list. *)
Theorem Open_needs_13_bytes :
  forall (fs : os.FileSystem) (path : string) (d : list byte) (nc : File),
  fs path = Some d -> Open fs path = (Some nc, None) ->
  (13 <= List.length d)%nat.
Proof.
  intros fs path d nc Hfs H.
  destruct (Open_Some fs path nc None H)
    as (_ & d' & nc1 & s1 & s2 & Hd & (Hlen & _) & HD & HV & _).
  rewrite Hfs in Hd. inversion Hd; subst d'.
  assert (Hs : opened (os.mkState d 8 false))
    by (split; [reflexivity|simpl; lia]).
  pose proof (readDimList_Ok_offset _ _ _ _ Hs HD) as Hoff.
  pose proof (proj1 (decodes_readDimList (initial_File path d) _ Hs)) as Ho1.
  rewrite HD in Ho1.
  pose proof (readVarList_Ok_room _ _ _ _ Ho1 HV) as Hroom.
  pose proof (exec_data (readDimList (initial_File path d))
                        (os.mkState d 8 false)) as HData.
  rewrite HD in HData. unfold os.size in *.
  cbn [fst snd os.data os.offset] in *. rewrite HData in Hroom. lia.
Qed.

(** A file of exactly 13 bytes that [Open] accepts: its last word is cut
    after one byte. *)
Lemma Open_needs_13_bytes_witness :
  (13 <= List.length shortest_accepted)%nat.
Proof.
  apply (Open_needs_13_bytes (single_file "s.nc" shortest_accepted)
           "s.nc"%string shortest_accepted
           (mkFile (os.mkFile "s.nc") ClassicFormat 0 [] []) eq_refl).
  vm_compute. reflexivity.
Defined.

(** ** Decoding what is laid out *)

































(** ** The command *)



Example main_on_lat_temp :
  main (single_file main_path file_no_gatt) "1ms"
  = mkOutput ["Format: Classic (CDF-1)"; "NumRecs: 0"; "Dimensions:";
              "  lat = 180"; "Total execution time: 1ms"]%string None 0.
Proof. vm_compute. reflexivity. Qed.

(** ** Counts against the size of the file *)

Lemma readString_progress s name s1 :
  opened s -> exec readString s = (Ok name, s1) ->
  os.offset s < os.size s /\ os.offset s < os.offset s1.
Proof.
  intros Hs. unfold readString. rewrite exec_try.
  destruct (exec readU32 s) as [[n|e] s'] eqn:HU; cbn [fst snd]; [|discriminate].
  destruct (readU32_Ok_room s n s' Hs HU) as [Hroom Hoff].
  intros H.
  match type of H with exec ?k s' = _ =>
    assert (Hf : forward k) by fwd;
    pose proof (forward_offset_le k Hf s') as Hle
  end.
  rewrite H in Hle. cbn [snd] in Hle. lia.
Qed.

Lemma readDim_progress s d s1 :
  opened s -> exec readDim s = (Ok d, s1) ->
  os.offset s < os.size s /\ os.offset s < os.offset s1.
Proof.
  intros Hs. unfold readDim. rewrite exec_try.
  destruct (exec readString s) as [[name|e] s'] eqn:HS; cbn [fst snd];
    [|discriminate].
  destruct (readString_progress s name s' Hs HS) as [Hroom Hoff].
  intros H.
  match type of H with exec ?k s' = _ =>
    assert (Hf : forward k) by fwd;
    pose proof (forward_offset_le k Hf s') as Hle
  end.
  rewrite H in Hle. cbn [snd] in Hle. lia.
Qed.

Lemma readVar_progress s v s1 :
  opened s -> exec readVar s = (Ok v, s1) ->
  os.offset s < os.size s /\ os.offset s < os.offset s1.
Proof.
  intros Hs. unfold readVar. rewrite exec_try.
  destruct (exec readString s) as [[name|e] s'] eqn:HS; cbn [fst snd];
    [|discriminate].
  destruct (readString_progress s name s' Hs HS) as [Hroom Hoff].
  intros H.
  match type of H with exec ?k s' = _ =>
    assert (Hf : forward k) by fwd;
    pose proof (forward_offset_le k Hf s') as Hle
  end.
  rewrite H in Hle. cbn [snd] in Hle. lia.
Qed.

Lemma readDims_bound n : forall acc s r s',
  opened s -> exec (readDims n acc) s = (Ok r, s') ->
  Z.of_nat n <= Z.max 0 (os.size s - os.offset s)
  /\ Z.of_nat n <= os.offset s' - os.offset s.
Proof.
  induction n as [|n IH]; intros acc s r s' Hs; cbn [readDims].
  - cbn [exec]. intros H; inversion H; subst. lia.
  - rewrite exec_try.
    destruct (exec readDim s) as [[d|e] s1] eqn:HD; cbn [fst snd]; [|discriminate].
    destruct (readDim_progress s d s1 Hs HD) as [Hroom Hoff].
    pose proof (proj1 (decodes_readDim s Hs)) as Ho. rewrite HD in Ho.
    pose proof (exec_data readDim s) as HData. rewrite HD in HData.
    intros H. destruct (IH _ _ _ _ Ho H) as [Hn Hle].
    unfold os.size in *. cbn [snd] in *. rewrite HData in Hn. lia.
Qed.

Lemma readVars_bound n : forall acc s r s',
  opened s -> exec (readVars n acc) s = (Ok r, s') ->
  Z.of_nat n <= Z.max 0 (os.size s - os.offset s)
  /\ Z.of_nat n <= os.offset s' - os.offset s.
Proof.
  induction n as [|n IH]; intros acc s r s' Hs; cbn [readVars].
  - cbn [exec]. intros H; inversion H; subst. lia.
  - rewrite exec_try.
    destruct (exec readVar s) as [[d|e] s1] eqn:HD; cbn [fst snd]; [|discriminate].
    destruct (readVar_progress s d s1 Hs HD) as [Hroom Hoff].
    pose proof (proj1 (decodes_readVar s Hs)) as Ho. rewrite HD in Ho.
    pose proof (exec_data readVar s) as HData. rewrite HD in HData.
    intros H. destruct (IH _ _ _ _ Ho H) as [Hn Hle].
    unfold os.size in *. cbn [snd] in *. rewrite HData in Hn. lia.
Qed.

Lemma readDimList_bound nc s nc1 s1 :
  opened s -> exec (readDimList nc) s = (Ok nc1, s1) ->
  Z.of_nat (List.length (Dims nc1)) <= os.offset s1 - os.offset s
  /\ Z.of_nat (List.length (Dims nc1)) <= os.size s - os.offset s.
Proof.
  intros Hs. unfold readDimList. rewrite exec_try.
  destruct (exec readU32 s) as [[tag|e] s'] eqn:HU; cbn [fst snd]; [|discriminate].
  destruct (readU32_Ok_room s tag s' Hs HU) as [Hroom Hoff].
  pose proof (readU32_opened s tag s' Hs HU) as Ho.
  pose proof (exec_data readU32 s) as HD1. rewrite HU in HD1.
  destruct (tag =? 0).
  { cbn [exec]. intros H; inversion H; subst. cbn [Dims set_Dims List.length]. lia. }
  destruct (negb (tag =? 0x0A)); [discriminate|].
  rewrite exec_try.
  destruct (exec readU32 s') as [[nelems|e] s2] eqn:HU2; cbn [fst snd];
    [|discriminate].
  destruct (readU32_Ok_room s' nelems s2 Ho HU2) as [Hroom2 Hoff2].
  pose proof (readU32_opened s' nelems s2 Ho HU2) as Ho2.
  pose proof (exec_data readU32 s') as HD2. rewrite HU2 in HD2.
  rewrite exec_try.
  destruct (exec (readDims (Z.to_nat nelems) []) s2) as [[dims|e] s3] eqn:HD;
    cbn [fst snd exec]; [|discriminate].
  intros H; inversion H; subst. cbn [Dims set_Dims].
  pose proof (readDims_length _ _ _ _ _ HD) as HL. cbn [List.length] in HL.
  rewrite HL.
  destruct (readDims_bound _ _ _ _ _ Ho2 HD) as [B1 B2].
  unfold os.size in *. cbn [snd] in *. rewrite HD1 in *. rewrite HD2 in *. lia.
Qed.

Lemma readVarList_bound nc s nc1 s1 :
  opened s -> exec (readVarList nc) s = (Ok nc1, s1) ->
  Z.of_nat (List.length (Vars nc1)) <= os.size s - os.offset s.
Proof.
  intros Hs. unfold readVarList. rewrite exec_try.
  destruct (exec readU32 s) as [[tag|e] s'] eqn:HU; cbn [fst snd]; [|discriminate].
  destruct (readU32_Ok_room s tag s' Hs HU) as [Hroom Hoff].
  pose proof (readU32_opened s tag s' Hs HU) as Ho.
  pose proof (exec_data readU32 s) as HD1. rewrite HU in HD1.
  destruct (tag =? 0).
  { cbn [exec]. intros H; inversion H; subst. cbn [Vars set_Vars List.length]. lia. }
  destruct (negb (tag =? 0x0B)); [discriminate|].
  rewrite exec_try.
  destruct (exec readU32 s') as [[nelems|e] s2] eqn:HU2; cbn [fst snd];
    [|discriminate].
  destruct (readU32_Ok_room s' nelems s2 Ho HU2) as [Hroom2 Hoff2].
  pose proof (readU32_opened s' nelems s2 Ho HU2) as Ho2.
  pose proof (exec_data readU32 s') as HD2. rewrite HU2 in HD2.
  rewrite exec_try.
  destruct (exec (readVars (Z.to_nat nelems) []) s2) as [[vars|e] s3] eqn:HD;
    cbn [fst snd exec]; [|discriminate].
  intros H; inversion H; subst. cbn [Vars set_Vars].
  pose proof (readVars_length _ _ _ _ _ HD) as HL. cbn [List.length] in HL.
  rewrite HL.
  destruct (readVars_bound _ _ _ _ _ Ho2 HD) as [B1 B2].
  unfold os.size in *. cbn [snd] in *. rewrite HD1 in *. rewrite HD2 in *. lia.
Qed.

(** X17.  A count word larger than what the file holds never yields a list:
    when [readDimList] or [readVarList] succeeds, the list has at most as
    many items as there were bytes left in the file, and a file returned by
    [Open] has at most [size - 8] dimensions and variables together. *)
Theorem decoded_lists_fit_in_the_file :
  (forall nc s nc1 s1,
      opened s -> exec (readDimList nc) s = (Ok nc1, s1) ->
      Z.of_nat (List.length (Dims nc1)) <= os.size s - os.offset s)
  /\ (forall nc s nc1 s1,
         opened s -> exec (readVarList nc) s = (Ok nc1, s1) ->
         Z.of_nat (List.length (Vars nc1)) <= os.size s - os.offset s)
  /\ (forall fs path d nc,
         fs path = Some d -> Open fs path = (Some nc, None) ->
         Z.of_nat (List.length (Dims nc) + List.length (Vars nc))
         <= Z.of_nat (List.length d) - 8).
Proof.
  split; [|split].
  - intros nc s nc1 s1 Hs H. exact (proj2 (readDimList_bound nc s nc1 s1 Hs H)).
  - exact readVarList_bound.
  - intros fs path d nc Hfs H.
    destruct (Open_Some fs path nc None H)
      as (_ & d' & nc1 & s1 & s2 & Hd & _ & HD & HV & Hnc).
    rewrite Hfs in Hd. inversion Hd; subst d'.
    assert (Hs : opened (os.mkState d 8 false))
      by (split; [reflexivity|simpl; lia]).
    destruct (readDimList_bound _ _ _ _ Hs HD) as [B1 _].
    pose proof (proj1 (decodes_readDimList (initial_File path d) _ Hs)) as Ho1.
    rewrite HD in Ho1. cbn [snd] in Ho1.
    pose proof (readVarList_bound _ _ _ _ Ho1 HV) as B2.
    pose proof (exec_data (readDimList (initial_File path d))
                          (os.mkState d 8 false)) as HData.
    rewrite HD in HData. unfold os.size in *.
    cbn [snd os.data os.offset] in *. rewrite HData in B2.
    rewrite Hnc. cbn [Dims Vars]. lia.
Qed.

(** The dimension list of [header_lat]: one dimension, 20 bytes left. *)
Lemma decoded_lists_fit_in_the_file_witness :
  Z.of_nat (List.length (Dims (mkFile (os.mkFile "l.nc") ClassicFormat 0
                                 [lat_dim] [])))
  <= os.size (os.mkState header_lat 8 false)
     - os.offset (os.mkState header_lat 8 false).
Proof.
  apply (proj1 decoded_lists_fit_in_the_file
           (initial_File "l.nc" header_lat) (os.mkState header_lat 8 false)
           (mkFile (os.mkFile "l.nc") ClassicFormat 0 [lat_dim] [])
           (os.mkState header_lat 28 false)).
  - split; [reflexivity | cbn; lia].
  - vm_compute. reflexivity.
Defined.
